(** * Weather Intelligence: the fetch / retry / batch-upsert pipeline

    A shallow embedding of [src/weather_client.py], [src/supabase_client.py]
    and the batch loop of [src/main.py], followed by the properties of the
    pipeline that the specification states.

    Python values are embedded as [pyval]; a Python [dict] with string keys
    is a [gmap string pyval].  Code that can raise returns a [result]; code
    that talks to the store threads a [store] and keeps its effects when an
    exception is raised.  The fetch of one ward is a function of what the
    provider answers; the fetches of a run, interleaved under the semaphore,
    are a step relation whose tasks end with the results of that function. *)

From Stdlib Require Import ZArith String List Lia.
From Stdlib Require Import Floats.SpecFloat.
From stdpp Require Import gmap strings list fin_maps.

Set Warnings "-register-all".
Local Open Scope string_scope.
Local Open Scope list_scope.
Local Open Scope nat_scope.

(* ===================================================================== *)
(** ** Python values, exceptions and the few built-ins the code uses      *)
(* ===================================================================== *)

Module Py.

(** JSON as [resp.json()] decodes it, and the values the code builds. *)
Inductive pyval : Type :=
| PNone
| PBool (b : bool)
| PInt (z : Z)
| PFloat (f : spec_float)
| PStr (s : string)
| PList (l : list pyval)
| PDict (d : gmap string pyval).

(** The exceptions that can leave the modelled code.  [StoreError] stands
    for whatever the store client's [execute()] raises. *)
Inductive exn : Type :=
| KeyError (key : string)
| AttributeError
| TypeError
| ValueError
| StoreError.

Inductive result (A : Type) : Type :=
| Ok (a : A)
| Raise (e : exn).
Arguments Ok {A} a.
Arguments Raise {A} e.

#[global] Instance result_ret : MRet result := fun A a => Ok a.
#[global] Instance result_bind : MBind result :=
  fun A B f m => match m with Ok a => f a | Raise e => Raise e end.
#[global] Instance result_fmap : FMap result :=
  fun A B f m => match m with Ok a => Ok (f a) | Raise e => Raise e end.

(** [for x in xs: ...] where the body may raise: the elements are visited
    in order and the first exception ends the loop. *)
Fixpoint for_each {A B : Type} (f : A -> result B) (xs : list A)
  : result (list B) :=
  match xs with
  | [] => Ok []
  | x :: xs' => y ← f x; ys ← for_each f xs'; Ok (y :: ys)
  end.

(** A dict display [{k1: v1, k2: v2, ...}]: later keys overwrite. *)
Definition py_dict (items : list (string * pyval)) : gmap string pyval :=
  fold_left (fun d kv => <[kv.1 := kv.2]> d) items ∅.

(** [{k1: e1, ...}] whose value expressions may raise, evaluated left to
    right. *)
Definition dict_of (items : list (string * result pyval))
  : result (gmap string pyval) :=
  kvs ← for_each (fun kv => v ← kv.2; Ok (kv.1, v)) items;
  Ok (py_dict kvs).

(** [v.get(k, dflt)]: only a dict has [.get]. *)
Definition py_get (v : pyval) (k : string) (dflt : pyval) : result pyval :=
  match v with
  | PDict d => Ok (default dflt (d !! k))
  | _ => Raise AttributeError
  end.

(** [v.get(k)] *)
Definition py_get_none (v : pyval) (k : string) : result pyval :=
  py_get v k PNone.

(** [v[k]] for a string key [k]. *)
Definition py_getitem (v : pyval) (k : string) : result pyval :=
  match v with
  | PDict d => match d !! k with
               | Some x => Ok x
               | None => Raise (KeyError k)
               end
  | _ => Raise TypeError
  end.

Fixpoint chars (s : string) : list pyval :=
  match s with
  | EmptyString => []
  | String c s' => PStr (String c EmptyString) :: chars s'
  end.

(** [iter(v)]: a list yields its elements, a dict its keys, a string its
    characters; nothing else is iterable.  Python yields the keys of a dict
    in insertion order, which a [gmap] does not keep; every loop of the
    code calls [.get] on the element first, which raises on any string, so
    the order is never observed. *)
Definition py_iter (v : pyval) : result (list pyval) :=
  match v with
  | PList l => Ok l
  | PDict d => Ok (PStr <$> (map_to_list d).*1)
  | PStr s => Ok (chars s)
  | _ => Raise TypeError
  end.

(** Truth value of [v] as [if v] / [not v] see it. *)
Definition py_truthy (v : pyval) : bool :=
  match v with
  | PNone => false
  | PBool b => b
  | PInt z => negb (z =? 0)%Z
  | PFloat f => match f with S754_zero _ => false | _ => true end
  | PStr s => match s with EmptyString => false | _ => true end
  | PList l => match l with [] => false | _ => true end
  | PDict d => match map_to_list d with [] => false | _ => true end
  end.

(** The binary64 number 1.0 *)
Definition float_one : spec_float := S754_finite false 4503599627370496 (-52).

(** [v == 1]: true for the int 1, for [True] and for the float 1.0. *)
Definition py_eq_one (v : pyval) : bool :=
  match v with
  | PInt z => (z =? 1)%Z
  | PBool b => b
  | PFloat f => SFeqb f float_one
  | _ => false
  end.

(** [xs[i : j]] for [0 <= i] *)
Definition py_slice {A : Type} (xs : list A) (i j : nat) : list A :=
  take (j - i) (drop i xs).

(** [range(0, stop, step)] for [step > 0]: 0, step, 2*step, ... below
    [stop]. *)
Definition py_range_step (stop step : nat) : list nat :=
  (fun k => k * step) <$> seq 0 ((stop + step - 1) / step).

End Py.
Import Py.

(* ===================================================================== *)
(** ** weather_client.py                                                  *)
(* ===================================================================== *)

Module weather_client.

(** Body of the loop over [forecast.get("forecastday", [])]. *)
Definition parse_forecast_day (day_data : pyval) : result pyval :=
  day_info ← py_get day_data "day" (PDict ∅);
  astro ← py_get day_data "astro" (PDict ∅);
  day_condition ← py_get day_info "condition" (PDict ∅);
  d ← dict_of
    [ ("date", py_get_none day_data "date");
      ("maxtemp_c", py_get_none day_info "maxtemp_c");
      ("mintemp_c", py_get_none day_info "mintemp_c");
      ("avgtemp_c", py_get_none day_info "avgtemp_c");
      ("maxwind_kph", py_get_none day_info "maxwind_kph");
      ("totalprecip_mm", py_get_none day_info "totalprecip_mm");
      ("avghumidity", py_get_none day_info "avghumidity");
      ("condition_text", py_get_none day_condition "text");
      ("condition_icon", py_get_none day_condition "icon");
      ("daily_chance_of_rain", py_get_none day_info "daily_chance_of_rain");
      ("daily_chance_of_snow", py_get_none day_info "daily_chance_of_snow");
      ("uv", py_get_none day_info "uv");
      ("sunrise", py_get_none astro "sunrise");
      ("sunset", py_get_none astro "sunset") ];
  Ok (PDict d).

(** Body of the loop over [alerts_data.get("alert", [])]. *)
Definition parse_alert (alert : pyval) : result pyval :=
  d ← dict_of
    [ ("event", py_get_none alert "event");
      ("headline", py_get_none alert "headline");
      ("description", py_get_none alert "desc");
      ("severity", py_get_none alert "severity");
      ("urgency", py_get_none alert "urgency");
      ("areas", py_get_none alert "areas");
      ("category", py_get_none alert "category");
      ("certainty", py_get_none alert "certainty");
      ("instruction", py_get_none alert "instruction");
      ("effective", py_get_none alert "effective");
      ("expires", py_get_none alert "expires") ];
  Ok (PDict d).

(** [_parse_response(data, ward_code)] *)
Definition _parse_response (data : pyval) (ward_code : string)
  : result (gmap string pyval) :=
  current ← py_get data "current" (PDict ∅);
  forecast ← py_get data "forecast" (PDict ∅);
  alerts_data ← py_get data "alerts" (PDict ∅);
  condition ← py_get current "condition" (PDict ∅);
  days ← py_get forecast "forecastday" (PList []);
  days ← py_iter days;
  forecast_days ← for_each parse_forecast_day days;
  raw_alerts ← py_get alerts_data "alert" (PList []);
  raw_alerts ← py_iter raw_alerts;
  alerts ← for_each parse_alert raw_alerts;
  dict_of
    [ ("ward_code", Ok (PStr ward_code));
      ("temperature_c", py_get_none current "temp_c");
      ("condition_text", py_get_none condition "text");
      ("condition_icon", py_get_none condition "icon");
      ("wind_kph", py_get_none current "wind_kph");
      ("humidity", py_get_none current "humidity");
      ("is_day", v ← py_get_none current "is_day"; Ok (PBool (py_eq_one v)));
      ("precip_mm", py_get_none current "precip_mm");
      ("forecast_days", Ok (PList forecast_days));
      ("alerts", Ok (PList alerts));
      ("alerts_summary",
        Ok (if py_truthy (PList alerts) then PList alerts else PNone));
      ("raw", Ok data) ].


(** What one [session.get(...)] brings back.  [Response status body]: a
    status line arrived; [body] is what reading the body gives
    ([resp.json()] for 200, [resp.text()] otherwise), [None] when the read
    itself raises [aiohttp.ClientError] or times out.  [TransportFailure]:
    the request raised [aiohttp.ClientError] or [asyncio.TimeoutError]. *)
Inductive outcome : Type :=
| Response (status : Z) (body : option pyval)
| TransportFailure.

(** What the function does that an observer with a mocked clock sees. *)
Inductive event : Type :=
| Request (attempt : nat)
| Sleep (seconds : nat).

(** How one iteration of [for attempt in range(3)] ends. *)
Inductive iteration : Type :=
| Return (r : result (option (gmap string pyval)))
| Backoff (wait : nat).

(** The [except (aiohttp.ClientError, asyncio.TimeoutError)] branch. *)
Definition on_transport_error (attempt : nat) : iteration :=
  if (attempt <? 2)%nat then Backoff (2 ^ (attempt + 1)) else Return (Ok None).

(** The body of the [try]. *)
Definition on_attempt (ward_code : string) (attempt : nat) (o : outcome)
  : iteration :=
  match o with
  | Response status body =>
      if (status =? 200)%Z then
        match body with
        | Some data => Return (Some <$> _parse_response data ward_code)
        | None => on_transport_error attempt
        end
      else if (status =? 429)%Z then Backoff (2 ^ (attempt + 1))
      else
        match body with
        | Some _ => Return (Ok None)
        | None => on_transport_error attempt
        end
  | TransportFailure => on_transport_error attempt
  end.

(** The [for] loop over the remaining attempts; falling out of the loop
    reaches the final [return None]. *)
Fixpoint fetch_attempts (provider : nat -> outcome) (ward_code : string)
    (attempts : list nat)
  : list event * result (option (gmap string pyval)) :=
  match attempts with
  | [] => ([], Ok None)
  | attempt :: rest =>
      match on_attempt ward_code attempt (provider attempt) with
      | Return r => ([Request attempt], r)
      | Backoff wait =>
          let '(tr, r) := fetch_attempts provider ward_code rest in
          (Request attempt :: Sleep wait :: tr, r)
      end
  end.

(** [fetch_ward_weather], run alone: [provider k] is the outcome of the
    request of attempt [k].  The permit it holds meanwhile is the subject
    of [scheduler] below. *)
Definition fetch_ward_weather (provider : nat -> outcome) (ward_code : string)
  : list event * result (option (gmap string pyval)) :=
  fetch_attempts provider ward_code (seq 0 3).

End weather_client.
Import weather_client.


(* ===================================================================== *)
(** ** supabase_client.py                                                 *)
(* ===================================================================== *)

Module supabase_client.

(** One [....execute()] sent to the store. *)
Inductive call : Type :=
| Upsert (chunk : list (gmap string pyval))
    (* table weather_cache: upsert(chunk, on_conflict="ward_code") *)
| Delete (ward_code : string)
    (* table weather_alerts: delete().eq("ward_code", ward_code) *)
| Insert (chunk : list (gmap string pyval)).
    (* table weather_alerts: insert(chunk) *)

(** The store as the writers see it: the rows of [weather_alerts] and the
    calls sent so far, oldest first, whether they succeeded or not. *)
Record store : Type := {
  weather_alerts : list (gmap string pyval);
  calls : list call;
}.

(** Code that uses the store: it may raise, and what it did to the store
    before raising stays done. *)
Definition M (A : Type) : Type := store -> result A * store.

#[global] Instance M_ret : MRet M := fun A a s => (Ok a, s).
#[global] Instance M_bind : MBind M := fun A B f m s =>
  match m s with
  | (Ok a, s') => f a s'
  | (Raise e, s') => (Raise e, s')
  end.

Definition lift {A : Type} (r : result A) : M A := fun s => (r, s).

(** [try: m  except Exception as e: handler e] *)
Definition try_except {A : Type} (m : M A) (handler : exn -> M A) : M A :=
  fun s =>
    match m s with
    | (Ok a, s') => (Ok a, s')
    | (Raise e, s') => handler e s'
    end.

(** Whether the row belongs to the ward. *)
Definition is_ward (ward_code : string) (r : gmap string pyval) : bool :=
  match r !! "ward_code" with
  | Some (PStr s) => bool_decide (s = ward_code)
  | _ => false
  end.

(** The store's side of a call that goes through: delete-by-key removes
    the ward's alert rows, a bulk insert appends the chunk.  The rows of
    weather_cache are not tracked: what was sent is in [calls]. *)
Definition apply_call (c : call) (alerts : list (gmap string pyval))
  : list (gmap string pyval) :=
  match c with
  | Upsert _ => alerts
  | Delete ward_code => filter (fun r => is_ward ward_code r = false) alerts
  | Insert chunk => alerts ++ chunk
  end.

Section Writers.

(** [fails i]: the [i]-th call sent to the store (counting from 0 over
    the life of the store) raises and changes nothing. *)
Variable fails : nat -> bool.

(** [....execute()] *)
Definition execute (c : call) : M () := fun s =>
  if fails (length (calls s))
  then (Raise StoreError,
        {| weather_alerts := weather_alerts s; calls := calls s ++ [c] |})
  else (Ok (),
        {| weather_alerts := apply_call c (weather_alerts s);
           calls := calls s ++ [c] |}).

Definition chunk_size : nat := 500.

(** The row built for one result [w]; [now] is
    [datetime.now(timezone.utc).isoformat()]. *)
Definition weather_row (now : string) (w : pyval)
  : result (gmap string pyval) :=
  dict_of
    [ ("ward_code", py_getitem w "ward_code");
      ("latitude", py_getitem w "latitude");
      ("longitude", py_getitem w "longitude");
      ("temperature_c", py_getitem w "temperature_c");
      ("condition_text", py_getitem w "condition_text");
      ("condition_icon", py_getitem w "condition_icon");
      ("wind_kph", py_getitem w "wind_kph");
      ("humidity", py_getitem w "humidity");
      ("is_day", py_getitem w "is_day");
      ("precip_mm", py_getitem w "precip_mm");
      ("daily_forecast", py_getitem w "forecast_days");
      ("alerts_summary", py_getitem w "alerts_summary");
      ("raw_response", py_getitem w "raw");
      ("fetched_at", Ok (PStr now));
      ("updated_at", Ok (PStr now)) ].

(** The loop [for i in range(0, len(rows), chunk_size)] of the weather
    writer, [starts] being the values of [i] still to come. *)
Fixpoint upsert_chunks (rows : list (gmap string pyval))
    (starts : list nat) (upserted : nat) : M nat :=
  match starts with
  | [] => mret upserted
  | i :: rest =>
      let chunk := py_slice rows i (i + chunk_size) in
      upserted' ← try_except
        (_ ← execute (Upsert chunk); mret (upserted + length chunk))
        (fun _ => mret upserted);
      upsert_chunks rows rest upserted'
  end.

(** [upsert_weather_batch(client, weather_results)] *)
Definition upsert_weather_batch (now : string)
    (weather_results : list pyval) : M nat :=
  rows ← lift (for_each (weather_row now) weather_results);
  match rows with
  | [] => mret 0
  | _ => upsert_chunks rows (py_range_step (length rows) chunk_size) 0
  end.

(** Ward codes are strings (the [ward_code: str] of the fetch and the
    data model); they are what the set [ward_codes_with_alerts] holds.
    Python would take any hashable value there and raise [TypeError] on
    a list or a dict only; the model raises it on anything but a
    string. *)
Definition as_ward_code (v : pyval) : result string :=
  match v with
  | PStr s => Ok s
  | _ => Raise TypeError
  end.

(** The row appended for one alert of a ward. *)
Definition alert_row (ward_code : pyval) (alert : pyval)
  : result (gmap string pyval) :=
  dict_of
    [ ("ward_code", Ok ward_code);
      ("event", py_get_none alert "event");
      ("headline", py_get_none alert "headline");
      ("description", py_get_none alert "description");
      ("severity", py_get_none alert "severity");
      ("urgency", py_get_none alert "urgency");
      ("areas", py_get_none alert "areas");
      ("category", py_get_none alert "category");
      ("certainty", py_get_none alert "certainty");
      ("instruction", py_get_none alert "instruction");
      ("effective", py_get_none alert "effective");
      ("expires", py_get_none alert "expires") ].

(** One iteration of [for w in weather_results] in the alert writer,
    on [(alert_rows, ward_codes_with_alerts)]. *)
Definition collect_alerts_of (acc : list (gmap string pyval) * gset string)
    (w : pyval) : result (list (gmap string pyval) * gset string) :=
  a ← py_get_none w "alerts";
  if negb (py_truthy a) then Ok acc
  else
    ward_code ← py_getitem w "ward_code";
    s ← as_ward_code ward_code;
    alerts ← py_getitem w "alerts";
    items ← py_iter alerts;
    rows ← for_each (alert_row ward_code) items;
    Ok (acc.1 ++ rows, {[s]} ∪ acc.2).

Fixpoint collect_alerts (weather_results : list pyval)
    (acc : list (gmap string pyval) * gset string)
  : result (list (gmap string pyval) * gset string) :=
  match weather_results with
  | [] => Ok acc
  | w :: rest => acc' ← collect_alerts_of acc w; collect_alerts rest acc'
  end.

(** [for ward_code in ward_codes_with_alerts: delete ...] *)
Fixpoint delete_wards (ward_codes : list string) : M () :=
  match ward_codes with
  | [] => mret ()
  | ward_code :: rest => _ ← execute (Delete ward_code); delete_wards rest
  end.

(** The loop [for i in range(0, len(alert_rows), chunk_size)] of the
    alert writer. *)
Fixpoint insert_chunks (alert_rows : list (gmap string pyval))
    (starts : list nat) (inserted : nat) : M nat :=
  match starts with
  | [] => mret inserted
  | i :: rest =>
      let chunk := py_slice alert_rows i (i + chunk_size) in
      _ ← execute (Insert chunk);
      insert_chunks alert_rows rest (inserted + length chunk)
  end.

(** [upsert_alerts(client, weather_results)].  Python iterates the set
    in an order of its own; [elements] fixes one, and no property below
    depends on which. *)
Definition upsert_alerts (weather_results : list pyval) : M nat :=
  acc ← lift (collect_alerts weather_results ([], ∅));
  let alert_rows := acc.1 in
  let ward_codes_with_alerts := acc.2 in
  match alert_rows with
  | [] => mret 0
  | _ =>
      try_except
        (_ ← delete_wards (elements ward_codes_with_alerts);
         insert_chunks alert_rows
           (py_range_step (length alert_rows) chunk_size) 0)
        (fun _ => mret 0)
  end.

End Writers.

End supabase_client.
Import supabase_client.

(* ===================================================================== *)
(** ** main.py: the batch loop and the summary                            *)
(* ===================================================================== *)

Module main.

(** A ward as the ward source returns it; [float(ward["latitude"])] is the
    identity on it. *)
Record WardCoordinate : Type := {
  ward_code : string;
  latitude : spec_float;
  longitude : spec_float;
}.

(** What the loop carries from one batch to the next. *)
Record progress : Type := {
  all_results : list pyval;
  failed_count : nat;
}.

Record summary : Type := {
  total_wards : nat;
  successful : nat;
  failed : nat;
  elapsed_seconds : spec_float;
  wards_per_second : pyval;
}.

Section Run.

(** [provider ward k]: what the request of attempt [k] for [ward] brings
    back. *)
Variable provider : WardCoordinate -> nat -> outcome.
(** The faults of the store, as in [supabase_client]. *)
Variable fails : nat -> bool.
(** The time the weather writer reads when called for the batch that
    starts at the given index. *)
Variable now : nat -> string.
(** Float arithmetic of the platform: [round(x, 1)] and [n / x]. *)
Variable round1 : spec_float -> spec_float.
Variable int_div : nat -> spec_float -> spec_float.

(** [await asyncio.gather] of the tasks: the results in the order of the
    batch.  A task that raises makes the gather raise; when several do,
    the model lets the first of the batch win. *)
Definition gather (batch : list WardCoordinate)
  : result (list (option (gmap string pyval))) :=
  for_each
    (fun ward => (fetch_ward_weather (provider ward) (ward_code ward)).2)
    batch.

(** [[r for r in results if r is not None]] *)
Definition batch_results_of (results : list (option (gmap string pyval)))
  : list pyval :=
  PDict <$> omap id results.

(** The body of [for batch_start in range(0, total_wards, batch_size)]
    once the batch is cut.  The throttle sleep at its end changes no
    value and is left out. *)
Definition process_batch (batch_start : nat) (batch : list WardCoordinate)
    (st : progress) : M progress :=
  results ← lift (gather batch);
  let batch_results := batch_results_of results in
  let batch_failed := length results - length batch_results in
  let st' := {| all_results := all_results st ++ batch_results;
                failed_count := failed_count st + batch_failed |} in
  _ ← match batch_results with
      | [] => mret ()
      | _ =>
          upserted ← upsert_weather_batch fails (now batch_start)
                       batch_results;
          alerts_count ← upsert_alerts fails batch_results;
          mret ()
      end;
  mret st'.

(** [wards[batch_start:batch_end]] *)
Definition batch_at (wards : list WardCoordinate) (batch_size : nat)
    (batch_start : nat) : list WardCoordinate :=
  let batch_end := Nat.min (batch_start + batch_size) (length wards) in
  py_slice wards batch_start batch_end.

Fixpoint batches (wards : list WardCoordinate) (batch_size : nat)
    (starts : list nat) (st : progress) : M progress :=
  match starts with
  | [] => mret st
  | batch_start :: rest =>
      st' ← process_batch batch_start
              (batch_at wards batch_size batch_start) st;
      batches wards batch_size rest st'
  end.

(** [main] from the ward list on; [elapsed] is
    [time.time() - start_time].  No wards: the actor exits with code 1
    and pushes no summary.  A batch size below 1 makes
    [asyncio.Semaphore] or [range] raise [ValueError]. *)
Definition run (batch_size : Z) (wards : list WardCoordinate)
    (elapsed : spec_float) : M (option summary) :=
  match wards with
  | [] => mret None
  | _ =>
      if (batch_size <=? 0)%Z then lift (Raise ValueError)
      else
        let total_wards := length wards in
        let batch_size := Z.to_nat batch_size in
        st ← batches wards batch_size
               (py_range_step total_wards batch_size)
               {| all_results := []; failed_count := 0 |};
        mret (Some
          {| total_wards := total_wards;
             successful := length (all_results st);
             failed := failed_count st;
             elapsed_seconds := round1 elapsed;
             wards_per_second :=
               if SFltb (S754_zero false) elapsed
               then PFloat (round1 (int_div total_wards elapsed))
               else PInt 0 |})
  end.

End Run.

End main.
Import main.

(* ===================================================================== *)
(** ** The fetch tasks of a run, interleaved under the semaphore          *)
(* ===================================================================== *)

Module scheduler.

(** Where a fetch task stands in [fetch_ward_weather]. *)
Inductive pc : Type :=
| Waiting                     (* at [async with semaphore], not yet in *)
| Attempting (attempt : nat)  (* inside, request [attempt] under way *)
| Sleeping (attempt : nat)    (* inside, in the sleep after [attempt] *)
| Finished (r : result (option (gmap string pyval))).  (* left the block *)

(** A task; [holds_permit] records the acquire and the release of
    [async with semaphore]. *)
Record task : Type := {
  ward : WardCoordinate;
  at_pc : pc;
  holds_permit : bool;
}.

(** The semaphore's counter, the tasks of the batch being gathered and the
    batches still to come. *)
Record sched : Type := {
  permits : nat;
  tasks : list task;
  later : list (list WardCoordinate);
}.

(** A fetch call is in flight from its first request to its return. *)
Definition in_flight (t : task) : bool :=
  match at_pc t with
  | Attempting _ | Sleeping _ => true
  | _ => false
  end.

Definition returned (t : task) : bool :=
  match at_pc t with
  | Finished (Ok _) => true
  | _ => false
  end.

Definition launch (w : WardCoordinate) : task :=
  {| ward := w; at_pc := Waiting; holds_permit := false |}.

(** The number of tasks for which [p] holds. *)
Definition count (p : task -> bool) (ts : list task) : nat :=
  length (filter (fun t => p t = true) ts).

(** [asyncio.Semaphore(batch_size)] and the batches [main] will cut. *)
Definition init (batch_size : nat) (wards : list WardCoordinate) : sched :=
  {| permits := batch_size;
     tasks := [];
     later := batch_at wards batch_size
                <$> py_range_step (length wards) batch_size |}.

Section Steps.

Variable provider : WardCoordinate -> nat -> outcome.

(** One move of one task, with the semaphore's counter before and
    after.  Entering the block takes a permit and needs one to be there;
    leaving it, by [return] or by an exception, gives it back. *)
Inductive task_step : nat -> task -> nat -> task -> Prop :=
| acquire p w :
    task_step (S p) {| ward := w; at_pc := Waiting; holds_permit := false |}
              p {| ward := w; at_pc := Attempting 0; holds_permit := true |}
| attempt_returns p w k h r :
    on_attempt (ward_code w) k (provider w k) = Return r ->
    task_step p {| ward := w; at_pc := Attempting k; holds_permit := h |}
              (S p) {| ward := w; at_pc := Finished r; holds_permit := false |}
| attempt_backs_off p w k h wait :
    on_attempt (ward_code w) k (provider w k) = Backoff wait ->
    task_step p {| ward := w; at_pc := Attempting k; holds_permit := h |}
              p {| ward := w; at_pc := Sleeping k; holds_permit := h |}
| wake_retry p w k h :
    S k < 3 ->
    task_step p {| ward := w; at_pc := Sleeping k; holds_permit := h |}
              p {| ward := w; at_pc := Attempting (S k); holds_permit := h |}
| wake_exhausted p w k h :
    ~ S k < 3 ->
    task_step p {| ward := w; at_pc := Sleeping k; holds_permit := h |}
              (S p) {| ward := w; at_pc := Finished (Ok None);
                       holds_permit := false |}.

(** One move of the run: some task moves, or, every task of the batch
    having returned, the next batch is launched. *)
Inductive step : sched -> sched -> Prop :=
| step_task s i t p' t' :
    tasks s !! i = Some t ->
    task_step (permits s) t p' t' ->
    step s {| permits := p'; tasks := <[i := t']> (tasks s);
              later := later s |}
| step_next_batch s batch rest :
    later s = batch :: rest ->
    forallb returned (tasks s) = true ->
    step s {| permits := permits s; tasks := launch <$> batch;
              later := rest |}.

End Steps.

End scheduler.
Import scheduler.

(* ===================================================================== *)
(** ** Sample inputs                                                      *)
(* ===================================================================== *)

Module samples.

Definition sunny : pyval :=
  PDict (py_dict [("text", PStr "Sunny"); ("icon", PStr "//cdn/day/113.png")]).

Definition flood_alert : pyval :=
  PDict (py_dict
    [ ("event", PStr "Flood Warning");
      ("headline", PStr "Flood warning for the lowveld");
      ("desc", PStr "Heavy rain is expected");
      ("severity", PStr "Moderate");
      ("areas", PStr "Ehlanzeni");
      ("effective", PStr "2024-01-01T06:00:00+02:00");
      ("expires", PStr "2024-01-02T06:00:00+02:00") ]).

Definition forecast_day : pyval :=
  PDict (py_dict
    [ ("date", PStr "2024-01-01");
      ("day", PDict (py_dict
         [ ("maxtemp_c", PInt 29); ("mintemp_c", PInt 17);
           ("avghumidity", PInt 55); ("condition", sunny);
           ("daily_chance_of_rain", PInt 10); ("uv", PInt 9) ]));
      ("astro", PDict (py_dict
         [ ("sunrise", PStr "05:12 AM"); ("sunset", PStr "06:58 PM") ])) ]).

(** A provider payload with one forecast day and one alert. *)
Definition payload_with_alert : pyval :=
  PDict (py_dict
    [ ("current", PDict (py_dict
         [ ("temp_c", PInt 24); ("condition", sunny); ("wind_kph", PInt 11);
           ("humidity", PInt 48); ("is_day", PInt 1); ("precip_mm", PInt 0) ]));
      ("forecast", PDict (py_dict [("forecastday", PList [forecast_day])]));
      ("alerts", PDict (py_dict [("alert", PList [flood_alert])])) ]).

(** The same with an empty alert list. *)
Definition payload_no_alert : pyval :=
  PDict (py_dict
    [ ("current", PDict (py_dict
         [ ("temp_c", PInt 24); ("condition", sunny); ("wind_kph", PInt 11);
           ("humidity", PInt 48); ("is_day", PInt 1); ("precip_mm", PInt 0) ]));
      ("forecast", PDict (py_dict [("forecastday", PList [forecast_day])]));
      ("alerts", PDict (py_dict [("alert", PList [])])) ]).

(** A payload that lacks every optional field. *)
Definition payload_empty : pyval := PDict ∅.

(** What the normalizer makes of [payload_empty] for ward "W1". *)
Definition record_empty : gmap string pyval :=
  py_dict
    [ ("ward_code", PStr "W1"); ("temperature_c", PNone);
      ("condition_text", PNone); ("condition_icon", PNone);
      ("wind_kph", PNone); ("humidity", PNone); ("is_day", PBool false);
      ("precip_mm", PNone); ("forecast_days", PList []);
      ("alerts", PList []); ("alerts_summary", PNone);
      ("raw", payload_empty) ].

(** What the normalizer makes of [payload_with_alert] for ward "W1". *)
Definition day_record : pyval :=
  PDict (py_dict
    [ ("date", PStr "2024-01-01"); ("maxtemp_c", PInt 29);
      ("mintemp_c", PInt 17); ("avgtemp_c", PNone); ("maxwind_kph", PNone);
      ("totalprecip_mm", PNone); ("avghumidity", PInt 55);
      ("condition_text", PStr "Sunny");
      ("condition_icon", PStr "//cdn/day/113.png");
      ("daily_chance_of_rain", PInt 10); ("daily_chance_of_snow", PNone);
      ("uv", PInt 9); ("sunrise", PStr "05:12 AM");
      ("sunset", PStr "06:58 PM") ]).

Definition alert_record : pyval :=
  PDict (py_dict
    [ ("event", PStr "Flood Warning");
      ("headline", PStr "Flood warning for the lowveld");
      ("description", PStr "Heavy rain is expected");
      ("severity", PStr "Moderate"); ("urgency", PNone);
      ("areas", PStr "Ehlanzeni"); ("category", PNone);
      ("certainty", PNone); ("instruction", PNone);
      ("effective", PStr "2024-01-01T06:00:00+02:00");
      ("expires", PStr "2024-01-02T06:00:00+02:00") ]).

Definition record_with_alert : gmap string pyval :=
  py_dict
    [ ("ward_code", PStr "W1"); ("temperature_c", PInt 24);
      ("condition_text", PStr "Sunny");
      ("condition_icon", PStr "//cdn/day/113.png");
      ("wind_kph", PInt 11); ("humidity", PInt 48); ("is_day", PBool true);
      ("precip_mm", PInt 0); ("forecast_days", PList [day_record]);
      ("alerts", PList [alert_record]);
      ("alerts_summary", PList [alert_record]);
      ("raw", payload_with_alert) ].

(** A result that also carries the ward's coordinates. *)
Definition record_with_coordinates : gmap string pyval :=
  <["latitude" := PInt (-26)]> (<["longitude" := PInt 28]> record_empty).

(** The row the weather writer builds from [record_with_coordinates]. *)
Definition row_with_coordinates (now : string) : gmap string pyval :=
  py_dict
    [ ("ward_code", PStr "W1"); ("latitude", PInt (-26));
      ("longitude", PInt 28); ("temperature_c", PNone);
      ("condition_text", PNone); ("condition_icon", PNone);
      ("wind_kph", PNone); ("humidity", PNone); ("is_day", PBool false);
      ("precip_mm", PNone); ("daily_forecast", PList []);
      ("alerts_summary", PNone); ("raw_response", payload_empty);
      ("fetched_at", PStr now); ("updated_at", PStr now) ].

Definition no_faults : nat -> bool := fun _ => false.

(** Only the first call sent to the store raises. *)
Definition first_call_fails : nat -> bool := fun i => bool_decide (i = 0).

Definition empty_store : store := {| weather_alerts := []; calls := [] |}.

(** An alert row as an earlier run stored it. *)
Definition stored_alert (ward_code event : string) : gmap string pyval :=
  py_dict [("ward_code", PStr ward_code); ("event", PStr event)].

(** A store that holds one alert for "W1" and one for "W2". *)
Definition store_with_alerts : store :=
  {| weather_alerts := [stored_alert "W1" "Storm"; stored_alert "W2" "Heat"];
     calls := [] |}.

(** A batch in which "W1" reports one alert and "W2" none. *)
Definition batch_w1_alert : list pyval :=
  [ PDict record_with_alert;
    PDict (<["ward_code" := PStr "W2"]> record_empty) ].

(** The alert row the alert writer builds for "W1" in that batch. *)
Definition flood_row : gmap string pyval :=
  py_dict
    [ ("ward_code", PStr "W1"); ("event", PStr "Flood Warning");
      ("headline", PStr "Flood warning for the lowveld");
      ("description", PStr "Heavy rain is expected");
      ("severity", PStr "Moderate"); ("urgency", PNone);
      ("areas", PStr "Ehlanzeni"); ("category", PNone);
      ("certainty", PNone); ("instruction", PNone);
      ("effective", PStr "2024-01-01T06:00:00+02:00");
      ("expires", PStr "2024-01-02T06:00:00+02:00") ].

Definition ward_at (i : nat) : WardCoordinate :=
  {| ward_code := String (Ascii.ascii_of_nat (48 + i / 100))
                    (String (Ascii.ascii_of_nat (48 + (i / 10) mod 10))
                       (String (Ascii.ascii_of_nat (48 + i mod 10)) ""));
     latitude := S754_zero false;
     longitude := S754_zero false |}.

(** 120 wards, "000" to "119". *)
Definition wards_120 : list WardCoordinate := ward_at <$> seq 0 120.

(** Wards "007" and "099" never get a response; every other request is
    answered 200 with [payload_no_alert]. *)
Definition provider_two_down (w : WardCoordinate) (k : nat) : outcome :=
  if bool_decide (ward_code w = "007") || bool_decide (ward_code w = "099")
  then TransportFailure
  else Response 200 (Some payload_no_alert).

(** Pool of one permit, one ward: the task has entered the block and its
    first request is under way. *)
Definition one_in_flight : sched :=
  {| permits := 0;
     tasks := [ {| ward := ward_at 0; at_pc := Attempting 0;
                   holds_permit := true |} ];
     later := [] |}.

Definition always_down : WardCoordinate -> nat -> outcome :=
  fun _ _ => TransportFailure.

End samples.

(* ===================================================================== *)
(** ** Notions used to state the properties                               *)
(* ===================================================================== *)

Module props.

(** Output key and provider key of the optional fields the normalizer
    copies, per source object. *)
Definition current_fields : list (string * string) :=
  [ ("temperature_c", "temp_c"); ("wind_kph", "wind_kph");
    ("humidity", "humidity"); ("precip_mm", "precip_mm") ].

Definition condition_fields : list (string * string) :=
  [ ("condition_text", "text"); ("condition_icon", "icon") ].

Definition day_fields : list (string * string) :=
  [ ("maxtemp_c", "maxtemp_c"); ("mintemp_c", "mintemp_c");
    ("avgtemp_c", "avgtemp_c"); ("maxwind_kph", "maxwind_kph");
    ("totalprecip_mm", "totalprecip_mm"); ("avghumidity", "avghumidity");
    ("daily_chance_of_rain", "daily_chance_of_rain");
    ("daily_chance_of_snow", "daily_chance_of_snow"); ("uv", "uv") ].

Definition astro_fields : list (string * string) :=
  [ ("sunrise", "sunrise"); ("sunset", "sunset") ].

Definition alert_fields : list (string * string) :=
  [ ("event", "event"); ("headline", "headline"); ("description", "desc");
    ("severity", "severity"); ("urgency", "urgency"); ("areas", "areas");
    ("category", "category"); ("certainty", "certainty");
    ("instruction", "instruction"); ("effective", "effective");
    ("expires", "expires") ].

(** Every field of [fields] that the source object lacks is null in
    [out]. *)
Definition absent_to_null (src : pyval) (fields : list (string * string))
    (out : gmap string pyval) : Prop :=
  forall d, src = PDict d ->
    Forall (fun f => d !! f.2 = None -> out !! f.1 = Some PNone) fields.

(** The same for one forecast day and one alert of the payload. *)
Definition day_nulls (day out : pyval) : Prop :=
  exists day_info astro day_condition o,
    py_get day "day" (PDict ∅) = Ok day_info /\
    py_get day "astro" (PDict ∅) = Ok astro /\
    py_get day_info "condition" (PDict ∅) = Ok day_condition /\
    out = PDict o /\
    absent_to_null day [("date", "date")] o /\
    absent_to_null day_info day_fields o /\
    absent_to_null day_condition condition_fields o /\
    absent_to_null astro astro_fields o.

Definition alert_nulls (alert out : pyval) : Prop :=
  exists o, out = PDict o /\ absent_to_null alert alert_fields o.

(** [data.get(k1, {}).get(k2, [])], iterated. *)
Definition items_at (data : pyval) (k1 k2 : string) : result (list pyval) :=
  o ← py_get data k1 (PDict ∅); v ← py_get o k2 (PList []); py_iter v.

(** The chunks a writer cuts [rows] into. *)
Definition chunks_of (rows : list (gmap string pyval))
  : list (list (gmap string pyval)) :=
  (fun i => py_slice rows i (i + chunk_size))
    <$> py_range_step (length rows) chunk_size.

(** Sending calls one after the other until one raises. *)
Fixpoint send_all (fails : nat -> bool) (cs : list call) : M () :=
  match cs with
  | [] => mret ()
  | c :: rest => _ ← execute fails c; send_all fails rest
  end.

Definition apply_calls (cs : list call) (alerts : list (gmap string pyval))
  : list (gmap string pyval) :=
  fold_left (fun t c => apply_call c t) cs alerts.

(** The calls the alert writer means to send for [alert_rows] and
    [ward_codes_with_alerts]: the deletes, then the inserts. *)
Definition alert_calls (alert_rows : list (gmap string pyval))
    (ward_codes_with_alerts : gset string) : list call :=
  (Delete <$> elements ward_codes_with_alerts)
    ++ (Insert <$> chunks_of alert_rows).

(** The stored alerts of a ward. *)
Definition alerts_of (ward_code : string) (alerts : list (gmap string pyval))
  : list (gmap string pyval) :=
  filter (fun r => is_ward ward_code r = true) alerts.

(** Some result of the batch for the ward carries at least one alert. *)
Definition has_alerts (weather_results : list pyval) (ward_code : string)
  : Prop :=
  exists d, PDict d ∈ weather_results /\
    d !! "ward_code" = Some (PStr ward_code) /\
    py_truthy (default PNone (d !! "alerts")) = true.

(** A record the normalizer produced. *)
Definition normalized (w : pyval) : Prop :=
  exists data ward_code r,
    _parse_response data ward_code = Ok r /\ w = PDict r.

(** Rows counted by a writer that sends [chunks], the first of them being
    call number [first]: those of the chunks whose call goes through. *)
Definition rows_written (fails : nat -> bool) (first : nat)
    (chunks : list (list (gmap string pyval))) : nat :=
  sum_list (imap (fun k chunk =>
                    if fails (first + k) then 0 else length chunk) chunks).

(** One more failure in the tally. *)
Definition one_more_failed (st : progress) : progress :=
  {| all_results := all_results st; failed_count := S (failed_count st) |}.

(** A call that leaves the stored alerts of the ward as they are. *)
Definition spares (ward_code : string) (c : call) : Prop :=
  match c with
  | Upsert _ => True
  | Delete ward_code' => ward_code' <> ward_code
  | Insert chunk => alerts_of ward_code chunk = []
  end.

(** The permits not handed out and the permits held add up to the size of
    the pool, and the tasks in flight are the tasks that hold a permit. *)
Definition sched_inv (batch_size : nat) (s : sched) : Prop :=
  permits s + count holds_permit (tasks s) = batch_size /\
  Forall (fun t => in_flight t = holds_permit t) (tasks s).

Definition weight (b : bool) : nat := if b then 1 else 0.

(** What a task will end with, from where it stands. *)
Definition resume (provider : WardCoordinate -> nat -> outcome) (t : task)
  : result (option (gmap string pyval)) :=
  let w := ward t in
  match at_pc t with
  | Waiting => (fetch_ward_weather (provider w) (ward_code w)).2
  | Attempting k =>
      (fetch_attempts (provider w) (ward_code w) (seq k (3 - k))).2
  | Sleeping k =>
      (fetch_attempts (provider w) (ward_code w) (seq (S k) (3 - S k))).2
  | Finished r => r
  end.

(** The attempt a task is at is one of [range(3)]. *)
Definition pc_ok (t : task) : Prop :=
  match at_pc t with
  | Attempting k | Sleeping k => k < 3
  | _ => True
  end.

End props.
Import props samples.

(* ===================================================================== *)
(** ** supabase_client.py: the client and the ward source                 *)
(* ===================================================================== *)

Module ward_source.

(** What [get_supabase_client] gives: a client for the URL and the key, or
    the [RuntimeError] it raises. *)
Inductive client_result : Type :=
| Client (url key : string)
| RuntimeError.

(** [not v] for [v = os.getenv(...)]: the variable is missing or empty. *)
Definition unset (v : option string) : bool :=
  match v with
  | None => true
  | Some EmptyString => true
  | Some _ => false
  end.

(** [get_supabase_client()], [env] being the environment. *)
Definition get_supabase_client (env : gmap string string) : client_result :=
  let url := env !! "SUPABASE_URL" in
  let key := env !! "SUPABASE_SERVICE_KEY" in
  if unset url || unset key then RuntimeError
  else Client (default "" url) (default "" key).

(** A read sent to the table weather_cache, always with
    [select("ward_code, latitude, longitude")]. *)
Inductive query : Type :=
| Limit (n : Z)                (* .limit(n) *)
| Range (first last : nat).    (* .range(first, last), both ends included *)

Definition page_size : nat := 1000.

Section Reads.

(** What the select yields for the whole table, in the order in which the
    server lists it; the server lists it in the same order for every
    query. *)
Variable table : list (gmap string pyval).
(** [fails i]: the [i]-th query of the call raises. *)
Variable fails : nat -> bool.

(** What the server answers. *)
Definition answer (q : query) : list (gmap string pyval) :=
  match q with
  | Limit n => take (Z.to_nat n) table
  | Range first last => py_slice table first (S last)
  end.

(** The [while True] loop, [asked] queries having been sent.  [fuel] bounds
    the number of turns; [None] when it runs out. *)
Fixpoint pages (fuel : nat) (start asked : nat)
    (all_wards : list (gmap string pyval))
  : option (list query * result (list (gmap string pyval))) :=
  match fuel with
  | 0 => None
  | S fuel' =>
      let q := Range start (start + page_size - 1) in
      if fails asked then Some ([q], Raise StoreError)
      else
        let batch := answer q in
        match batch with
        | [] => Some ([q], Ok all_wards)
        | _ =>
            let all_wards' := all_wards ++ batch in
            if length batch <? page_size then Some ([q], Ok all_wards')
            else
              match pages fuel' (start + page_size) (S asked) all_wards' with
              | Some (qs, r) => Some (q :: qs, r)
              | None => None
              end
        end
  end.

(** [get_all_wards(client, limit)]: the queries sent and what is
    returned. *)
Definition get_all_wards (fuel : nat) (limit : Z)
  : option (list query * result (list (gmap string pyval))) :=
  if (limit >? 0)%Z then
    Some ([Limit limit],
          if fails 0 then Raise StoreError else Ok (answer (Limit limit)))
  else pages fuel 0 0 [].

End Reads.

End ward_source.
Import ward_source.

(* ===================================================================== *)
(** ** main.py: input, environment and throttle                           *)
(* ===================================================================== *)

Module startup.

(** The run configuration as read from the actor input; the values are the
    JSON values of the input. *)
Record config : Type := {
  batch_size : pyval;
  delay_ms : pyval;
  max_wards : pyval;
  test_mode : pyval;
}.

(** Lines 24 to 32 of [main]: [input] is what [Actor.get_input()] returns. *)
Definition read_config (input : pyval) : result config :=
  let raw_input := if py_truthy input then input else PDict ∅ in
  batch_size ← py_get raw_input "batchSize" (PInt 50);
  delay_ms ← py_get raw_input "delayBetweenBatchesMs" (PInt 200);
  max_wards ← py_get raw_input "maxWardsToProcess" (PInt 0);
  test_mode ← py_get raw_input "runTestMode" (PBool false);
  Ok {| batch_size := batch_size;
        delay_ms := delay_ms;
        max_wards := if py_truthy test_mode then PInt 5 else max_wards;
        test_mode := test_mode |}.

(** How the validation of the environment ends: [Actor.exit] with a code,
    or on to the ward source with the API key and the client. *)
Inductive checked : Type :=
| Exit (exit_code : Z)
| Ready (api_key : string) (sb : client_result).

(** Lines 35 to 51 of [main]. *)
Definition check_env (env : gmap string string) : checked :=
  let api_key := env !! "WEATHER_API_KEY" in
  if unset api_key then Exit 1
  else
    let supabase_url := env !! "SUPABASE_URL" in
    let supabase_key := env !! "SUPABASE_SERVICE_KEY" in
    if unset supabase_url || unset supabase_key then Exit 1
    else Ready (default "" api_key) (get_supabase_client env).

(** Lines 108 and 109 of [main], for an integer [delay_ms]: whether the
    batch that starts at [batch_start] is followed by a sleep. *)
Definition throttled (delay_ms : Z) (total_wards batch_size batch_start : nat)
  : bool :=
  let batch_end := Nat.min (batch_start + batch_size) total_wards in
  (delay_ms >? 0)%Z && (batch_end <? total_wards).

(** The starts of the batches of a run that are followed by a sleep. *)
Definition throttle_points (delay_ms : Z) (total_wards batch_size : nat)
  : list nat :=
  filter (fun batch_start =>
            throttled delay_ms total_wards batch_size batch_start = true)
    (py_range_step total_wards batch_size).

End startup.

(* ===================================================================== *)
(** ** More notions used to state properties                              *)
(* ===================================================================== *)

Module more_props.

(** The keys of a normalized record, of one of its forecast days and of one
    of its alerts. *)
Definition record_keys : list string :=
  [ "ward_code"; "temperature_c"; "condition_text"; "condition_icon";
    "wind_kph"; "humidity"; "is_day"; "precip_mm"; "forecast_days";
    "alerts"; "alerts_summary"; "raw" ].

Definition day_keys : list string :=
  [ "date"; "maxtemp_c"; "mintemp_c"; "avgtemp_c"; "maxwind_kph";
    "totalprecip_mm"; "avghumidity"; "condition_text"; "condition_icon";
    "daily_chance_of_rain"; "daily_chance_of_snow"; "uv"; "sunrise";
    "sunset" ].

Definition alert_keys : list string :=
  [ "event"; "headline"; "description"; "severity"; "urgency"; "areas";
    "category"; "certainty"; "instruction"; "effective"; "expires" ].

(** The keys the weather writer reads from a result, and the columns of the
    row it builds. *)
Definition required_keys : list string :=
  [ "ward_code"; "latitude"; "longitude"; "temperature_c"; "condition_text";
    "condition_icon"; "wind_kph"; "humidity"; "is_day"; "precip_mm";
    "forecast_days"; "alerts_summary"; "raw" ].

Definition row_columns : list string :=
  [ "ward_code"; "latitude"; "longitude"; "temperature_c"; "condition_text";
    "condition_icon"; "wind_kph"; "humidity"; "is_day"; "precip_mm";
    "daily_forecast"; "alerts_summary"; "raw_response"; "fetched_at";
    "updated_at" ].

(** The columns the row takes under the same name from the result. *)
Definition copied_columns : list string :=
  [ "ward_code"; "latitude"; "longitude"; "temperature_c"; "condition_text";
    "condition_icon"; "wind_kph"; "humidity"; "is_day"; "precip_mm";
    "alerts_summary" ].

(** A dict whose keys are exactly [keys]. *)
Definition has_keys (keys : list string) (v : pyval) : Prop :=
  exists o, v = PDict o /\ dom o = list_to_set keys.

(** The value under [k] is absent or a dict. *)
Definition dict_or_absent (d : gmap string pyval) (k : string) : bool :=
  match d !! k with
  | None | Some (PDict _) => true
  | _ => false
  end.

(** [d.get(k, {})] when it is a dict. *)
Definition section (d : gmap string pyval) (k : string) : gmap string pyval :=
  match d !! k with
  | Some (PDict x) => x
  | _ => ∅
  end.

Definition is_dict (v : pyval) : bool :=
  match v with
  | PDict _ => true
  | _ => false
  end.

(** The value under [k] is absent or a list of values that satisfy [p]. *)
Definition list_of (p : pyval -> bool) (d : gmap string pyval) (k : string)
  : bool :=
  match d !! k with
  | None => true
  | Some (PList l) => forallb p l
  | _ => false
  end.

(** The list under [k], empty when absent. *)
Definition items (d : gmap string pyval) (k : string) : list pyval :=
  match d !! k with
  | Some (PList l) => l
  | _ => []
  end.

(** A forecast day of the shape the provider documents. *)
Definition day_shaped (day : pyval) : bool :=
  match day with
  | PDict dd =>
      dict_or_absent dd "day" && dict_or_absent dd "astro"
      && dict_or_absent (section dd "day") "condition"
  | _ => false
  end.

(** A payload of the shape the provider documents: an object whose
    [current], [forecast], [alerts] and [current.condition], where present,
    are objects, whose [forecast.forecastday] is a list of days and whose
    [alerts.alert] is a list of objects. *)
Definition payload_shaped (data : pyval) : bool :=
  match data with
  | PDict d =>
      dict_or_absent d "current" && dict_or_absent d "forecast"
      && dict_or_absent d "alerts"
      && dict_or_absent (section d "current") "condition"
      && list_of day_shaped (section d "forecast") "forecastday"
      && list_of is_dict (section d "alerts") "alert"
  | _ => false
  end.

(** The alerts a result carries. *)
Definition alerts_in (w : pyval) : list pyval :=
  match w with
  | PDict r => items r "alerts"
  | _ => []
  end.

(** The alert row for an alert of the normalizer: the alert itself with the
    ward code added. *)
Definition with_ward (ward_code : string) (alert : pyval)
  : gmap string pyval :=
  match alert with
  | PDict o => <["ward_code" := PStr ward_code]> o
  | _ => ∅
  end.

(** The ward code a result carries. *)
Definition ward_of (w : pyval) : string :=
  match w with
  | PDict r => match r !! "ward_code" with Some (PStr s) => s | _ => "" end
  | _ => ""
  end.

(** The traces a fetch can leave. *)
Definition fetch_traces : list (list event) :=
  [ [Request 0];
    [Request 0; Sleep 2; Request 1];
    [Request 0; Sleep 2; Request 1; Sleep 4; Request 2];
    [Request 0; Sleep 2; Request 1; Sleep 4; Request 2; Sleep 8] ].

(** The seconds a trace spends asleep. *)
Definition slept (tr : list event) : nat :=
  sum_list ((fun e => match e with Sleep n => n | Request _ => 0 end) <$> tr).

(** The row does not belong to any of the wards. *)
Definition kept (ward_codes : list string) (r : gmap string pyval) : bool :=
  forallb (fun wc => negb (is_ward wc r)) ward_codes.

Definition waiting (t : task) : bool :=
  match at_pc t with
  | Waiting => true
  | _ => false
  end.

Definition finished (t : task) : bool :=
  match at_pc t with
  | Finished _ => true
  | _ => false
  end.

(** The pool never has fewer permits than a batch has tasks. *)
Definition room_inv (batch_size : nat) (s : sched) : Prop :=
  length (tasks s) <= batch_size /\
  Forall (fun batch => length batch <= batch_size) (later s).

(** The batches [main] cuts the ward list into. *)
Definition batches_of (wards : list WardCoordinate) (batch_size : nat)
  : list (list WardCoordinate) :=
  batch_at wards batch_size <$> py_range_step (length wards) batch_size.

(** The summary of a run in which every ward failed. *)
Definition all_failed_summary (round1 : spec_float -> spec_float)
    (int_div : nat -> spec_float -> spec_float) (n : nat)
    (elapsed : spec_float) : summary :=
  {| total_wards := n;
     successful := 0;
     failed := n;
     elapsed_seconds := round1 elapsed;
     wards_per_second :=
       if SFltb (S754_zero false) elapsed
       then PFloat (round1 (int_div n elapsed))
       else PInt 0 |}.

(** The queries of a full pagination from [start] on, [n] of them. *)
Definition page_queries (start n : nat) : list query :=
  (fun k => Range (start + k * page_size) (start + k * page_size + page_size - 1))
    <$> seq 0 n.

(** A provider that answers every request with status 500. *)
Definition always_500 : WardCoordinate -> nat -> outcome :=
  fun _ _ => Response 500 (Some (PStr "down")).

(** Pool of one permit, one ward: the task is launched and has not yet
    entered the block. *)
Definition one_waiting : sched :=
  {| permits := 1; tasks := [launch (ward_at 0)]; later := [] |}.

(** The same once the one request has been answered 500. *)
Definition one_done : sched :=
  {| permits := 1;
     tasks := [ {| ward := ward_at 0; at_pc := Finished (Ok None);
                   holds_permit := false |} ];
     later := [] |}.

(** An environment with the three variables [main] needs. *)
Definition full_env : gmap string string :=
  <["WEATHER_API_KEY" := "k-123"]>
    (<["SUPABASE_URL" := "https://example.supabase.co"]>
       (<["SUPABASE_SERVICE_KEY" := "service-key"]> ∅)).

(** A table of [n] wards. *)
Definition ward_table (n : nat) : list (gmap string pyval) :=
  (fun i => py_dict [("ward_code", PInt (Z.of_nat i))]) <$> seq 0 n.

End more_props.
Import more_props.

(* ===================================================================== *)
(** ** The result monad and the Python built-ins                          *)
(* ===================================================================== *)

Lemma bind_ok {A B : Type} (m : result A) (f : A -> result B) (b : B) :
  m ≫= f = Ok b -> exists a, m = Ok a /\ f a = Ok b.
Proof. destruct m as [a|e]; simpl; [eauto | discriminate]. Qed.

Lemma py_get_ok v k dflt x :
  py_get v k dflt = Ok x -> exists d, v = PDict d /\ x = default dflt (d !! k).
Proof. destruct v; simpl; try discriminate. intros [= <-]. eauto. Qed.

Lemma for_each_app {A B : Type} (f : A -> result B) (xs ys : list A) :
  for_each f (xs ++ ys) =
  (us ← for_each f xs; vs ← for_each f ys; Ok (us ++ vs)).
Proof.
  induction xs as [|x xs IH]; simpl.
  - destruct (for_each f ys); reflexivity.
  - destruct (f x) as [y|e]; simpl; [|reflexivity].
    rewrite IH. destruct (for_each f xs) as [us|e]; simpl; [|reflexivity].
    destruct (for_each f ys); reflexivity.
Qed.

Lemma for_each_Forall2 {A B : Type} (f : A -> result B) (xs : list A)
    (ys : list B) :
  for_each f xs = Ok ys -> Forall2 (fun x y => f x = Ok y) xs ys.
Proof.
  revert ys. induction xs as [|x xs IH]; simpl; intros ys H.
  - injection H as <-. constructor.
  - apply bind_ok in H as (y & Hy & H).
    apply bind_ok in H as (ys' & Hys & H). injection H as <-.
    constructor; auto.
Qed.

Lemma for_each_length {A B : Type} (f : A -> result B) (xs : list A)
    (ys : list B) :
  for_each f xs = Ok ys -> length ys = length xs.
Proof.
  intros H. apply for_each_Forall2 in H.
  symmetry. eapply Forall2_length, H.
Qed.

(* ===================================================================== *)
(** ** The normalizer                                                     *)
(* ===================================================================== *)

(** What a successful [_parse_response] has read and built. *)
Lemma parse_response_ok data wc r :
  _parse_response data wc = Ok r ->
  exists d c cond fc al days raw_alerts forecast_days alerts,
    data = PDict d /\
    default (PDict ∅) (d !! "current") = PDict c /\
    default (PDict ∅) (c !! "condition") = PDict cond /\
    default (PDict ∅) (d !! "forecast") = PDict fc /\
    default (PDict ∅) (d !! "alerts") = PDict al /\
    py_iter (default (PList []) (fc !! "forecastday")) = Ok days /\
    for_each parse_forecast_day days = Ok forecast_days /\
    py_iter (default (PList []) (al !! "alert")) = Ok raw_alerts /\
    for_each parse_alert raw_alerts = Ok alerts /\
    r = py_dict
      [ ("ward_code", PStr wc);
        ("temperature_c", default PNone (c !! "temp_c"));
        ("condition_text", default PNone (cond !! "text"));
        ("condition_icon", default PNone (cond !! "icon"));
        ("wind_kph", default PNone (c !! "wind_kph"));
        ("humidity", default PNone (c !! "humidity"));
        ("is_day", PBool (py_eq_one (default PNone (c !! "is_day"))));
        ("precip_mm", default PNone (c !! "precip_mm"));
        ("forecast_days", PList forecast_days);
        ("alerts", PList alerts);
        ("alerts_summary",
          if py_truthy (PList alerts) then PList alerts else PNone);
        ("raw", data) ].
Proof.
  unfold _parse_response. intros H.
  apply bind_ok in H as (current & Hc & H).
  apply py_get_ok in Hc as (d & -> & ->).
  apply bind_ok in H as (forecast & Hf & H).
  apply py_get_ok in Hf as (d' & [= <-] & ->).
  apply bind_ok in H as (alerts_data & Ha & H).
  apply py_get_ok in Ha as (d' & [= <-] & ->).
  apply bind_ok in H as (condition & Hcond & H).
  apply py_get_ok in Hcond as (c & Hc & ->).
  apply bind_ok in H as (days0 & Hd & H).
  apply py_get_ok in Hd as (fc & Hfc & ->).
  apply bind_ok in H as (days & Hdays & H).
  apply bind_ok in H as (forecast_days & Hfd & H).
  apply bind_ok in H as (ra0 & Hra & H).
  apply py_get_ok in Hra as (al & Hal & ->).
  apply bind_ok in H as (raw_alerts & Hraw & H).
  apply bind_ok in H as (alerts & Halerts & H).
  rewrite Hc in H.
  destruct (default (PDict ∅) (c !! "condition")) as [| | | | | |cond] eqn:Hcond;
    try discriminate H.
  cbn in H. injection H as <-.
  exists d, c, cond, fc, al, days, raw_alerts, forecast_days, alerts.
  repeat split; assumption.
Qed.

Lemma parse_forecast_day_nulls day out :
  parse_forecast_day day = Ok out -> day_nulls day out.
Proof.
  unfold parse_forecast_day. intros H.
  apply bind_ok in H as (day_info & Hdi & H).
  apply bind_ok in H as (astro & Has & H).
  apply bind_ok in H as (day_condition & Hdc & H).
  apply bind_ok in H as (o & Ho & H). injection H as <-.
  exists day_info, astro, day_condition, o. repeat split; try assumption.
  all: destruct day as [| | | | | |dd]; try discriminate Hdi;
    destruct day_info as [| | | | | |di]; try discriminate Hdc;
    destruct astro as [| | | | | |da]; try discriminate Ho;
    destruct day_condition as [| | | | | |dc]; try discriminate Ho;
    cbn in Ho; injection Ho as <-;
    intros x [= <-]; repeat constructor; cbn; intros ->; reflexivity.
Qed.

Lemma parse_alert_nulls alert out :
  parse_alert alert = Ok out -> alert_nulls alert out.
Proof.
  unfold parse_alert. intros H.
  apply bind_ok in H as (o & Ho & H). injection H as <-.
  exists o. split; [reflexivity|].
  destruct alert as [| | | | | |a]; try discriminate Ho.
  cbn in Ho. injection Ho as <-.
  intros x [= <-]. repeat constructor; cbn; intros ->; reflexivity.
Qed.

(** C5 (amended).  For every payload the normalizer accepts: each optional
    field other than the day/night flag that the payload lacks is null in the
    normalized record, in each of its forecast days and in each of its
    alerts; the day/night flag is a boolean, false when [is_day] is missing;
    the forecast days and the alerts are the lists built from the payload,
    empty when the payload has none; and the alert summary is null, not an
    empty list, when the payload reports zero alerts. *)
Theorem normalizer_missing_fields data ward_code r :
  _parse_response data ward_code = Ok r ->
  exists current condition days raw_alerts forecast_days alerts,
    py_get data "current" (PDict ∅) = Ok current /\
    py_get current "condition" (PDict ∅) = Ok condition /\
    items_at data "forecast" "forecastday" = Ok days /\
    items_at data "alerts" "alert" = Ok raw_alerts /\
    absent_to_null current current_fields r /\
    absent_to_null condition condition_fields r /\
    (forall c, current = PDict c ->
       r !! "is_day" = Some (PBool (py_eq_one (default PNone (c !! "is_day")))) /\
       (c !! "is_day" = None -> r !! "is_day" = Some (PBool false))) /\
    r !! "forecast_days" = Some (PList forecast_days) /\
    Forall2 day_nulls days forecast_days /\
    r !! "alerts" = Some (PList alerts) /\
    Forall2 alert_nulls raw_alerts alerts /\
    r !! "alerts_summary" =
      Some (match raw_alerts with [] => PNone | _ => PList alerts end).
Proof.
  intros H.
  apply parse_response_ok in H
    as (d & c & cond & fc & al & days & raw_alerts & forecast_days & alerts
        & -> & Hc & Hcond & Hfc & Hal & Hdays & Hfd & Hraw & Halerts & ->).
  exists (PDict c), (PDict cond), days, raw_alerts, forecast_days, alerts.
  repeat apply conj.
  - simpl. by rewrite Hc.
  - simpl. by rewrite Hcond.
  - unfold items_at. simpl. rewrite Hfc. exact Hdays.
  - unfold items_at. simpl. rewrite Hal. exact Hraw.
  - intros x [= <-]. repeat constructor; cbn; intros ->; reflexivity.
  - intros x [= <-]. repeat constructor; cbn; intros ->; reflexivity.
  - intros x [= <-]. split; [reflexivity|]. cbn. intros ->. reflexivity.
  - reflexivity.
  - apply for_each_Forall2 in Hfd.
    eapply Forall2_impl; [exact Hfd|]. apply parse_forecast_day_nulls.
  - reflexivity.
  - apply for_each_Forall2 in Halerts.
    eapply Forall2_impl; [exact Halerts|]. apply parse_alert_nulls.
  - apply for_each_length in Halerts.
    destruct raw_alerts, alerts; try discriminate Halerts; reflexivity.
Qed.

Lemma normalizer_missing_fields_witness :
  _parse_response payload_empty "W1" = Ok record_empty /\
  exists current condition days raw_alerts forecast_days alerts,
    py_get payload_empty "current" (PDict ∅) = Ok current /\
    py_get current "condition" (PDict ∅) = Ok condition /\
    items_at payload_empty "forecast" "forecastday" = Ok days /\
    items_at payload_empty "alerts" "alert" = Ok raw_alerts /\
    absent_to_null current current_fields record_empty /\
    absent_to_null condition condition_fields record_empty /\
    (forall c, current = PDict c ->
       record_empty !! "is_day"
         = Some (PBool (py_eq_one (default PNone (c !! "is_day")))) /\
       (c !! "is_day" = None -> record_empty !! "is_day" = Some (PBool false))) /\
    record_empty !! "forecast_days" = Some (PList forecast_days) /\
    Forall2 day_nulls days forecast_days /\
    record_empty !! "alerts" = Some (PList alerts) /\
    Forall2 alert_nulls raw_alerts alerts /\
    record_empty !! "alerts_summary" =
      Some (match raw_alerts with [] => PNone | _ => PList alerts end).
Proof.
  split; [reflexivity|].
  apply (normalizer_missing_fields payload_empty "W1" record_empty).
  reflexivity.
Defined.

(** C5 as stated fails on the day/night flag: the payload [{}] has no
    [is_day], and the record carries [False], not null. *)
Lemma is_day_default_counterexample :
  ~ (forall data ward_code r c,
       _parse_response data ward_code = Ok r ->
       py_get data "current" (PDict ∅) = Ok (PDict c) ->
       c !! "is_day" = None ->
       r !! "is_day" = Some PNone).
Proof.
  intros H.
  specialize (H payload_empty "W1" record_empty ∅ eq_refl eq_refl eq_refl).
  vm_compute in H. discriminate H.
Qed.

(* ===================================================================== *)
(** ** The weather writer                                                 *)
(* ===================================================================== *)

Lemma normalized_lacks_coordinates w :
  normalized w ->
  exists r, w = PDict r /\ r !! "ward_code" <> None /\
    r !! "latitude" = None /\ r !! "longitude" = None.
Proof.
  intros (data & wc & r & H & ->). exists r.
  apply parse_response_ok in H
    as (d & c & cond & fc & al & days & raw_alerts & forecast_days & alerts
        & _ & _ & _ & _ & _ & _ & _ & _ & _ & ->).
  repeat split; try reflexivity. cbn. discriminate.
Qed.

Lemma weather_row_KeyError now r :
  r !! "ward_code" <> None -> r !! "latitude" = None ->
  weather_row now (PDict r) = Raise (KeyError "latitude").
Proof.
  intros Hw Hl. unfold weather_row, dict_of. simpl.
  destruct (r !! "ward_code"); [|congruence]. simpl. rewrite Hl. reflexivity.
Qed.

Lemma weather_writer_KeyError fails now (ws : list pyval) s :
  ws <> [] ->
  Forall normalized ws ->
  upsert_weather_batch fails now ws s = (Raise (KeyError "latitude"), s).
Proof.
  intros Hne Hall. destruct ws as [|w ws]; [congruence|].
  apply Forall_cons in Hall as [Hw _].
  apply normalized_lacks_coordinates in Hw as (r & -> & Hc & Hl & _).
  unfold upsert_weather_batch, lift, mbind, M_bind. simpl.
  rewrite (weather_row_KeyError now r Hc Hl). reflexivity.
Qed.

(** C10.  No record the normalizer produces has the key "latitude" or
    "longitude", and the weather writer reads both from every record before
    its chunk loop and outside its exception handler: on any non-empty list
    of normalizer records it raises [KeyError] and no call reaches the
    store. *)
Theorem normalized_rows_raise_KeyError fails now (ws : list pyval) s :
  ws <> [] ->
  Forall normalized ws ->
  Forall (fun w => exists r, w = PDict r /\
            r !! "latitude" = None /\ r !! "longitude" = None) ws /\
  upsert_weather_batch fails now ws s = (Raise (KeyError "latitude"), s).
Proof.
  intros Hne Hall. split.
  - eapply Forall_impl; [exact Hall|]. intros w Hw.
    apply normalized_lacks_coordinates in Hw as (r & -> & _ & ? & ?). eauto.
  - by apply weather_writer_KeyError.
Qed.

Lemma normalized_rows_raise_KeyError_witness :
  upsert_weather_batch no_faults "2024-01-01T00:00:00+00:00"
    [PDict record_empty] empty_store
  = (Raise (KeyError "latitude"), empty_store).
Proof.
  apply (normalized_rows_raise_KeyError no_faults "2024-01-01T00:00:00+00:00"
           [PDict record_empty] empty_store).
  - discriminate.
  - constructor; [|constructor].
    exists payload_empty, "W1", record_empty. split; reflexivity.
Defined.

(** C1 at a payload with one forecast day and one alert, answered with
    status 200 for ward "W1": the normalizer produces a record, and the
    weather writer given that record raises [KeyError] on "latitude"; no row
    is handed to the store and the store is as it was. *)
Theorem weather_write_of_normalized_payload_raises fails now s :
  (fetch_ward_weather
     (fun _ => Response 200 (Some payload_with_alert)) "W1").2
  = Ok (Some record_with_alert) /\
  upsert_weather_batch fails now [PDict record_with_alert] s
  = (Raise (KeyError "latitude"), s).
Proof. split; reflexivity. Qed.

(* ===================================================================== *)
(** ** The provider client                                                *)
(* ===================================================================== *)

(** C2.  When the first two requests for a ward are answered 429 and the
    third 200 with a payload, the fetch issues exactly three requests,
    sleeps 2 seconds before the second and 4 seconds before the third, and
    returns what the normalizer makes of the payload, which is never the
    failure signal [None]. *)
Theorem rate_limited_twice_then_ok provider ward_code b0 b1 data :
  provider 0 = Response 429 b0 ->
  provider 1 = Response 429 b1 ->
  provider 2 = Response 200 (Some data) ->
  fetch_ward_weather provider ward_code
    = ([Request 0; Sleep 2; Request 1; Sleep 4; Request 2],
       Some <$> _parse_response data ward_code) /\
  (fetch_ward_weather provider ward_code).2 <> Ok None.
Proof.
  intros H0 H1 H2.
  assert (fetch_ward_weather provider ward_code
    = ([Request 0; Sleep 2; Request 1; Sleep 4; Request 2],
       Some <$> _parse_response data ward_code)) as ->.
  { unfold fetch_ward_weather. simpl. rewrite H0, H1, H2. reflexivity. }
  split; [reflexivity|]. simpl.
  destruct (_parse_response data ward_code); discriminate.
Qed.

Lemma rate_limited_twice_then_ok_witness :
  fetch_ward_weather
    (fun k => if k <? 2 then Response 429 None
              else Response 200 (Some payload_empty)) "W1"
    = ([Request 0; Sleep 2; Request 1; Sleep 4; Request 2],
       Ok (Some record_empty)) /\
  (fetch_ward_weather
    (fun k => if k <? 2 then Response 429 None
              else Response 200 (Some payload_empty)) "W1").2 <> Ok None.
Proof.
  apply (rate_limited_twice_then_ok
           (fun k => if k <? 2 then Response 429 None
                     else Response 200 (Some payload_empty))
           "W1" None None payload_empty); reflexivity.
Defined.

Example other_status_fails_at_once :
  fetch_ward_weather (fun _ => Response 500 (Some (PStr "down"))) "W1"
  = ([Request 0], Ok None).
Proof. reflexivity. Qed.

Example rate_limited_three_times :
  fetch_ward_weather (fun _ => Response 429 None) "W1"
  = ([Request 0; Sleep 2; Request 1; Sleep 4; Request 2; Sleep 8], Ok None).
Proof. reflexivity. Qed.

Example malformed_payload_raises :
  fetch_ward_weather (fun _ => Response 200 (Some (PList []))) "W1"
  = ([Request 0], Raise AttributeError).
Proof. reflexivity. Qed.

Lemma transport_failures_exhaust provider ward_code :
  (forall k, k < 3 -> provider k = TransportFailure) ->
  fetch_ward_weather provider ward_code
    = ([Request 0; Sleep 2; Request 1; Sleep 4; Request 2], Ok None).
Proof.
  intros H. unfold fetch_ward_weather. simpl.
  rewrite !H by lia. reflexivity.
Qed.

(* ===================================================================== *)
(** ** One batch of the run                                               *)
(* ===================================================================== *)

Lemma length_omap_le {A B : Type} (f : A -> option B) (l : list A) :
  length (omap f l) <= length l.
Proof.
  induction l as [|x l IH]; csimpl; [lia|].
  destruct (f x); csimpl; lia.
Qed.

Lemma batch_results_of_length results :
  length (batch_results_of results) <= length results.
Proof.
  unfold batch_results_of. rewrite length_fmap. apply length_omap_le.
Qed.

Lemma batch_results_of_failed us vs :
  batch_results_of (us ++ None :: vs) = batch_results_of (us ++ vs).
Proof. unfold batch_results_of. rewrite !omap_app. reflexivity. Qed.

Lemma gather_app provider before after :
  gather provider (before ++ after)
  = (us ← gather provider before; vs ← gather provider after; Ok (us ++ vs)).
Proof. apply for_each_app. Qed.

Lemma gather_failed_ward provider before w after :
  (fetch_ward_weather (provider w) (ward_code w)).2 = Ok None ->
  gather provider (before ++ w :: after)
  = (us ← gather provider before; vs ← gather provider after;
     Ok (us ++ None :: vs)).
Proof.
  intros Hw. rewrite gather_app.
  destruct (gather provider before) as [us|e]; simpl; [|reflexivity].
  unfold gather at 1. simpl. rewrite Hw. simpl. fold (gather provider after).
  destruct (gather provider after); reflexivity.
Qed.


(** C3.  A ward whose three requests all fail at transport level: the fetch
    issues three requests, sleeps 2 seconds after the first failure and 4
    after the second, and returns [None] after the third.  In the batch that
    contains the ward, everything happens as in the same batch without it,
    store calls and stored rows included, except that the failed count is
    one higher: the ward is counted as failed and hands nothing to the
    writers. *)
Theorem transport_failure_counts_as_failed provider fails now w :
  (forall k, k < 3 -> provider w k = TransportFailure) ->
  fetch_ward_weather (provider w) (ward_code w)
    = ([Request 0; Sleep 2; Request 1; Sleep 4; Request 2], Ok None) /\
  forall batch_start before after st s,
    process_batch provider fails now batch_start (before ++ w :: after) st s
    = let '(r, s') :=
        process_batch provider fails now batch_start (before ++ after) st s in
      (one_more_failed <$> r, s').
Proof.
  intros Hw.
  pose proof (transport_failures_exhaust (provider w) (ward_code w) Hw) as Hf.
  split; [exact Hf|].
  intros batch_start before after st s.
  unfold process_batch.
  rewrite gather_failed_ward by (rewrite Hf; reflexivity). rewrite gather_app.
  destruct (gather provider before) as [us|e]; simpl; [|reflexivity].
  destruct (gather provider after) as [vs|e]; simpl; [|reflexivity].
  unfold lift, mbind, M_bind at 1 3. simpl.
  rewrite batch_results_of_failed.
  pose proof (batch_results_of_length (us ++ vs)) as Hle.
  rewrite !length_app in *. simpl.
  replace (length us + S (length vs) - length (batch_results_of (us ++ vs)))
    with (S (length us + length vs - length (batch_results_of (us ++ vs))))
    by lia.
  unfold M_bind, mret, M_ret.
  match goal with
  | |- context [match ?m s with _ => _ end] => destruct (m s) as [[[]|e] s']
  end; simpl; try reflexivity.
  unfold one_more_failed. simpl. rewrite length_app. do 3 f_equal. lia.
Qed.

(* ===================================================================== *)
(** ** Chunks                                                             *)
(* ===================================================================== *)

Lemma py_slice_chunk {A : Type} (l : list A) (i n : nat) :
  py_slice l i (i + n) = take n (drop i l).
Proof. unfold py_slice. f_equal. lia. Qed.

Lemma chunks_prefix {A : Type} (l : list A) (n m : nat) :
  concat ((fun k => take n (drop (k * n) l)) <$> seq 0 m) = take (m * n) l.
Proof.
  induction m as [|m IH]; [reflexivity|].
  rewrite seq_S, fmap_app, concat_app, IH. simpl.
  rewrite app_nil_r, take_take_drop. f_equal. lia.
Qed.

Lemma range_step_covers (len n : nat) :
  0 < n -> len <= (len + n - 1) / n * n.
Proof.
  intros Hn.
  pose proof (Nat.div_mod_eq (len + n - 1) n) as Hdiv.
  pose proof (Nat.mod_upper_bound (len + n - 1) n) as Hmod.
  nia.
Qed.

Lemma slices_concat {A : Type} (l : list A) (n : nat) :
  0 < n ->
  concat ((fun i => py_slice l i (i + n)) <$> py_range_step (length l) n) = l.
Proof.
  intros Hn. unfold py_range_step. rewrite <- list_fmap_compose.
  erewrite list_fmap_ext; [rewrite (chunks_prefix l n)|].
  - apply take_ge, range_step_covers, Hn.
  - intros i k _. simpl. apply py_slice_chunk.
Qed.

Lemma slices_bounded {A : Type} (l : list A) (n : nat) (starts : list nat) :
  Forall (fun c => length c <= n) ((fun i => py_slice l i (i + n)) <$> starts).
Proof.
  apply Forall_fmap, Forall_forall. intros i _. simpl.
  rewrite py_slice_chunk, length_take. lia.
Qed.

Lemma chunks_of_concat rows : concat (chunks_of rows) = rows.
Proof. apply slices_concat. unfold chunk_size. lia. Qed.

Lemma chunks_of_bounded rows :
  Forall (fun c => length c <= chunk_size) (chunks_of rows).
Proof. apply slices_bounded. Qed.

(* ===================================================================== *)
(** ** Calls sent to the store                                            *)
(* ===================================================================== *)

Lemma execute_ok fails c s :
  fails (length (calls s)) = false ->
  execute fails c s
  = (Ok (), {| weather_alerts := apply_call c (weather_alerts s);
               calls := calls s ++ [c] |}).
Proof. intros H. unfold execute. rewrite H. reflexivity. Qed.

Lemma execute_fail fails c s :
  fails (length (calls s)) = true ->
  execute fails c s
  = (Raise StoreError,
     {| weather_alerts := weather_alerts s; calls := calls s ++ [c] |}).
Proof. intros H. unfold execute. rewrite H. reflexivity. Qed.

Lemma store_eta s :
  {| weather_alerts := weather_alerts s; calls := calls s |} = s.
Proof. destruct s; reflexivity. Qed.

Lemma send_all_ok fails cs s :
  (forall j, j < length cs -> fails (length (calls s) + j) = false) ->
  send_all fails cs s
  = (Ok (), {| weather_alerts := apply_calls cs (weather_alerts s);
               calls := calls s ++ cs |}).
Proof.
  revert s. induction cs as [|c cs IH]; intros s H; simpl.
  - rewrite app_nil_r, store_eta. reflexivity.
  - unfold mbind, M_bind. rewrite execute_ok.
    2:{ rewrite <- (H 0) by (simpl; lia). f_equal. lia. }
    rewrite IH; simpl.
    + rewrite <- app_assoc. reflexivity.
    + intros j Hj. rewrite length_app. simpl.
      rewrite <- (H (S j)) by (simpl; lia). f_equal. lia.
Qed.

Lemma send_all_fail fails cs s k :
  k < length cs ->
  fails (length (calls s) + k) = true ->
  (forall j, j < k -> fails (length (calls s) + j) = false) ->
  send_all fails cs s
  = (Raise StoreError,
     {| weather_alerts := apply_calls (take k cs) (weather_alerts s);
        calls := calls s ++ take (S k) cs |}).
Proof.
  revert s k.
  induction cs as [|c cs IH]; intros s k Hk Hfail Hbefore; simpl in *.
  - lia.
  - unfold mbind, M_bind. destruct k as [|k].
    + rewrite execute_fail by (rewrite <- Hfail; f_equal; lia). reflexivity.
    + rewrite execute_ok.
      2:{ rewrite <- (Hbefore 0) by lia. f_equal. lia. }
      rewrite (IH _ k); simpl.
      * rewrite <- app_assoc. reflexivity.
      * lia.
      * rewrite length_app. simpl. rewrite <- Hfail. f_equal. lia.
      * intros j Hj. rewrite length_app. simpl.
        rewrite <- (Hbefore (S j)) by lia. f_equal. lia.
Qed.

Lemma send_all_prefix fails cs s :
  exists k,
    weather_alerts (send_all fails cs s).2
    = apply_calls (take k cs) (weather_alerts s).
Proof.
  revert s. induction cs as [|c cs IH]; intros s; simpl.
  - exists 0. reflexivity.
  - unfold mbind, M_bind, execute.
    destruct (fails (length (calls s))).
    + exists 0. reflexivity.
    + destruct (IH {| weather_alerts := apply_call c (weather_alerts s);
                      calls := calls s ++ [c] |}) as [k Hk].
      exists (S k). exact Hk.
Qed.

Lemma send_all_app fails cs1 cs2 s :
  send_all fails (cs1 ++ cs2) s
  = match send_all fails cs1 s with
    | (Ok _, s') => send_all fails cs2 s'
    | (Raise e, s') => (Raise e, s')
    end.
Proof.
  revert s. induction cs1 as [|c cs1 IH]; intros s; simpl; [reflexivity|].
  unfold mbind, M_bind. destruct (execute fails c s) as [[[]|e] s']; auto.
Qed.

Lemma delete_wards_send fails ward_codes s :
  delete_wards fails ward_codes s = send_all fails (Delete <$> ward_codes) s.
Proof.
  revert s.
  induction ward_codes as [|wc wcs IH]; intros s; simpl; [reflexivity|].
  unfold mbind, M_bind.
  destruct (execute fails (Delete wc) s) as [[[]|e] s']; auto.
Qed.

Lemma insert_chunks_send fails rows starts inserted s :
  insert_chunks fails rows starts inserted s
  = match send_all fails
            (Insert <$> ((fun i => py_slice rows i (i + chunk_size)) <$> starts))
            s
    with
    | (Ok _, s') =>
        (Ok (inserted
             + length (concat ((fun i => py_slice rows i (i + chunk_size))
                                 <$> starts))), s')
    | (Raise e, s') => (Raise e, s')
    end.
Proof.
  revert inserted s. induction starts as [|i starts IH]; intros inserted s.
  - simpl. unfold mret, M_ret. do 2 f_equal. lia.
  - cbn [insert_chunks send_all fmap list_fmap concat].
    unfold mbind, M_bind.
    destruct (execute fails _ s) as [[[]|e] s']; [|reflexivity].
    rewrite IH. destruct (send_all _ _ s') as [[[]|e] s'']; [|reflexivity].
    rewrite length_app. do 2 f_equal. lia.
Qed.

(* ===================================================================== *)
(** ** The weather writer, chunk by chunk                                 *)
(* ===================================================================== *)

Lemma rows_written_cons fails first c cs :
  rows_written fails first (c :: cs)
  = (if fails first then 0 else length c) + rows_written fails (S first) cs.
Proof.
  unfold rows_written. rewrite imap_cons. simpl. rewrite Nat.add_0_r.
  f_equal. f_equal. apply imap_ext. intros k x _. simpl.
  replace (first + S k) with (S (first + k)) by lia. reflexivity.
Qed.

Lemma upsert_chunks_spec fails rows starts upserted s :
  upsert_chunks fails rows starts upserted s
  = (Ok (upserted
         + rows_written fails (length (calls s))
             ((fun i => py_slice rows i (i + chunk_size)) <$> starts)),
     {| weather_alerts := weather_alerts s;
        calls := calls s
          ++ (Upsert <$> ((fun i => py_slice rows i (i + chunk_size))
                            <$> starts)) |}).
Proof.
  revert upserted s. induction starts as [|i starts IH]; intros upserted s.
  - simpl. unfold mret, M_ret, rows_written. simpl.
    rewrite app_nil_r, store_eta, Nat.add_0_r. reflexivity.
  - cbn [upsert_chunks fmap list_fmap]. rewrite rows_written_cons.
    unfold mbind, M_bind, try_except, execute.
    destruct (fails (length (calls s))) eqn:Hf; simpl; rewrite IH; simpl;
      rewrite length_app, <- app_assoc; simpl;
      replace (length (calls s) + 1) with (S (length (calls s))) by lia;
      do 2 f_equal; lia.
Qed.

(** C8.  The weather writer cuts the rows into chunks of at most 500 that
    together are the rows in order; it sends every chunk to the store,
    whether earlier chunks failed or not, and returns the number of rows of
    the chunks whose write went through. *)
Theorem weather_chunks_partial_failure fails now ws s rows :
  for_each (weather_row now) ws = Ok rows ->
  Forall (fun c => length c <= 500) (chunks_of rows) /\
  concat (chunks_of rows) = rows /\
  upsert_weather_batch fails now ws s
  = (Ok (rows_written fails (length (calls s)) (chunks_of rows)),
     {| weather_alerts := weather_alerts s;
        calls := calls s ++ (Upsert <$> chunks_of rows) |}).
Proof.
  intros Hrows. split; [apply chunks_of_bounded|].
  split; [apply chunks_of_concat|].
  unfold upsert_weather_batch, lift, mbind at 1, M_bind. rewrite Hrows.
  destruct rows as [|r rows'].
  - unfold mret, M_ret. cbn. rewrite app_nil_r, store_eta. reflexivity.
  - rewrite upsert_chunks_spec. reflexivity.
Qed.

Lemma weather_chunks_partial_failure_witness :
  upsert_weather_batch first_call_fails "2024-01-01T00:00:00+00:00"
    (replicate 501 (PDict record_with_coordinates)) empty_store
  = (Ok 1,
     {| weather_alerts := [];
        calls :=
          [ Upsert (replicate 500
                      (row_with_coordinates "2024-01-01T00:00:00+00:00"));
            Upsert [row_with_coordinates "2024-01-01T00:00:00+00:00"] ] |}).
Proof.
  exact (proj2 (proj2
    (weather_chunks_partial_failure first_call_fails
       "2024-01-01T00:00:00+00:00"
       (replicate 501 (PDict record_with_coordinates)) empty_store
       (replicate 501 (row_with_coordinates "2024-01-01T00:00:00+00:00"))
       eq_refl))).
Defined.

(* ===================================================================== *)
(** ** The alert writer: what it collects                                 *)
(* ===================================================================== *)

Lemma for_each_Forall {A B : Type} (f : A -> result B) (P : B -> Prop)
    (xs : list A) (ys : list B) :
  (forall x y, f x = Ok y -> P y) ->
  for_each f xs = Ok ys -> Forall P ys.
Proof.
  intros HP H. apply for_each_Forall2 in H.
  induction H; constructor; eauto.
Qed.

Lemma alert_row_ward ward_code alert r :
  alert_row ward_code alert = Ok r -> r !! "ward_code" = Some ward_code.
Proof.
  unfold alert_row. destruct alert; try discriminate.
  cbn. intros [= <-]. reflexivity.
Qed.

Lemma truthy_iter_nonempty a items :
  py_truthy a = true -> py_iter a = Ok items -> items <> [].
Proof.
  destruct a as [| | | |str|l|d]; simpl; try discriminate.
  - destruct str; [discriminate|]. intros _ [= <-]. discriminate.
  - destruct l; [discriminate|]. intros _ [= <-]. discriminate.
  - destruct (map_to_list d); [discriminate|]. intros _ [= <-]. discriminate.
Qed.

Lemma collect_alerts_of_ok acc w acc' :
  collect_alerts_of acc w = Ok acc' ->
  exists d, w = PDict d /\
    ((py_truthy (default PNone (d !! "alerts")) = false /\ acc' = acc) \/
     (exists wc new,
        py_truthy (default PNone (d !! "alerts")) = true /\
        d !! "ward_code" = Some (PStr wc) /\
        new <> [] /\
        Forall (fun r => r !! "ward_code" = Some (PStr wc)) new /\
        acc' = (acc.1 ++ new, {[wc]} ∪ acc.2))).
Proof.
  unfold collect_alerts_of. intros H.
  apply bind_ok in H as (a & Ha & H).
  apply py_get_ok in Ha as (d & -> & ->). exists d. split; [reflexivity|].
  destruct (py_truthy (default PNone (d !! "alerts"))) eqn:Ht; simpl in H.
  - right.
    apply bind_ok in H as (ward_code & Hwc & H).
    apply bind_ok in H as (wc & Hs & H).
    apply bind_ok in H as (alerts & Hal & H).
    apply bind_ok in H as (items & Hit & H).
    apply bind_ok in H as (new & Hnew & H). injection H as <-.
    destruct ward_code; try discriminate Hs. injection Hs as ->.
    simpl in Hwc, Hal.
    destruct (d !! "ward_code") as [v|] eqn:Hd; [|discriminate Hwc].
    injection Hwc as ->.
    destruct (d !! "alerts") as [v|] eqn:Hda; [|discriminate Hal].
    injection Hal as ->. simpl in Ht.
    exists wc, new. repeat split; try reflexivity.
    + pose proof (truthy_iter_nonempty _ _ Ht Hit) as Hne.
      apply for_each_length in Hnew.
      destruct new, items; simpl in *; congruence.
    + eapply for_each_Forall; [|exact Hnew].
      intros x y. apply alert_row_ward.
  - left. injection H as <-. split; reflexivity.
Qed.

Lemma has_alerts_nil wc : ~ has_alerts [] wc.
Proof. intros (d & Hin & _). by apply elem_of_nil in Hin. Qed.

Lemma has_alerts_cons w ws wc :
  has_alerts (w :: ws) wc <->
  (exists d, w = PDict d /\ d !! "ward_code" = Some (PStr wc) /\
             py_truthy (default PNone (d !! "alerts")) = true)
  \/ has_alerts ws wc.
Proof.
  unfold has_alerts. split.
  - intros (d & Hin & Hw & Ht). apply elem_of_cons in Hin as [<-|Hin].
    + left. eauto.
    + right. eauto.
  - intros [(d & -> & Hw & Ht)|(d & Hin & Hw & Ht)].
    + exists d. split; [apply elem_of_cons; auto|auto].
    + exists d. split; [apply elem_of_cons; auto|auto].
Qed.

Lemma collect_alerts_inv ws acc rows codes :
  collect_alerts ws acc = Ok (rows, codes) ->
  exists new, rows = acc.1 ++ new /\
    (forall wc, wc ∈ codes <-> wc ∈ acc.2 \/ has_alerts ws wc) /\
    Forall (fun r => exists wc,
              r !! "ward_code" = Some (PStr wc) /\ has_alerts ws wc) new /\
    (forall wc, has_alerts ws wc ->
       exists r, r ∈ new /\ r !! "ward_code" = Some (PStr wc)).
Proof.
  revert acc. induction ws as [|w ws IH]; intros acc H; simpl in H.
  - injection H as ->. exists []. simpl. rewrite app_nil_r.
    repeat split; auto.
    + intros [?|Hh]; [done|]. by apply has_alerts_nil in Hh.
    + intros wc Hh. by apply has_alerts_nil in Hh.
  - apply bind_ok in H as (acc' & Hw & H).
    apply IH in H as (new & -> & Hcodes & Hrows & Hhas).
    apply collect_alerts_of_ok in Hw
      as (d & -> & [[Ht ->]|(wc0 & new0 & Ht & Hd & Hne & Hnew0 & ->)]).
    + exists new. repeat split.
      * intros Hin. apply Hcodes in Hin as [?|?]; [auto|].
        right. apply has_alerts_cons. auto.
      * intros [?|Hh]; apply Hcodes; [auto|].
        apply has_alerts_cons in Hh as [(d' & [= <-] & _ & Ht')|?];
          [congruence|auto].
      * eapply Forall_impl; [exact Hrows|]. intros r (wc & ? & ?).
        exists wc. split; [auto|]. apply has_alerts_cons. auto.
      * intros wc Hh.
        apply has_alerts_cons in Hh as [(d' & [= <-] & _ & Ht')|?];
          [congruence|auto].
    + simpl in *. exists (new0 ++ new). rewrite app_assoc. repeat split.
      * intros Hin. apply Hcodes in Hin as [Hin|?].
        -- apply elem_of_union in Hin as [Hin|?]; [|auto].
           apply elem_of_singleton in Hin as ->.
           right. apply has_alerts_cons. left. eauto.
        -- right. apply has_alerts_cons. auto.
      * intros [?|Hh]; apply Hcodes.
        -- left. apply elem_of_union. auto.
        -- apply has_alerts_cons in Hh as [(d' & [= <-] & Hd' & _)|?];
             [|auto].
           left. apply elem_of_union. left. apply elem_of_singleton.
           congruence.
      * apply Forall_app. split.
        -- eapply Forall_impl; [exact Hnew0|]. intros r Hr. simpl in Hr.
           exists wc0. split; [auto|]. apply has_alerts_cons. left. eauto.
        -- eapply Forall_impl; [exact Hrows|]. intros r (wc & ? & ?).
           exists wc. split; [auto|]. apply has_alerts_cons. auto.
      * intros wc Hh.
        apply has_alerts_cons in Hh as [(d' & [= <-] & Hd' & _)|Hh].
        -- destruct new0 as [|r new0]; [congruence|].
           apply Forall_cons in Hnew0 as [Hr _]. exists r.
           split; [apply elem_of_app; left; apply elem_of_cons; auto|].
           simpl in Hr. congruence.
        -- apply Hhas in Hh as (r & ? & ?). exists r.
           split; [apply elem_of_app; auto|auto].
Qed.

(** What the alert writer has collected when it turns to the store. *)
Lemma collect_alerts_ok ws rows codes :
  collect_alerts ws ([], ∅) = Ok (rows, codes) ->
  (forall wc, wc ∈ codes <-> has_alerts ws wc) /\
  Forall (fun r => exists wc, r !! "ward_code" = Some (PStr wc) /\ wc ∈ codes)
    rows /\
  (forall wc, wc ∈ codes -> alerts_of wc rows <> []).
Proof.
  intros H. apply collect_alerts_inv in H as (new & -> & Hcodes & Hrows & Hhas).
  simpl in *.
  assert (forall wc, wc ∈ codes <-> has_alerts ws wc) as Hiff.
  { intros wc. rewrite Hcodes. split; [intros [?|?]|]; auto. set_solver. }
  repeat split.
  - apply Hiff.
  - apply Hiff.
  - eapply Forall_impl; [exact Hrows|]. intros r (wc & ? & ?).
    exists wc. split; [auto|]. by apply Hiff.
  - intros wc Hin Hnil. apply Hiff, Hhas in Hin as (r & Hr & Hw).
    assert (r ∈ alerts_of wc new) as Hr'.
    { apply list_elem_of_filter. split; [|exact Hr].
      unfold is_ward. rewrite Hw. by apply bool_decide_eq_true. }
    rewrite Hnil in Hr'. by apply elem_of_nil in Hr'.
Qed.

(* ===================================================================== *)
(** ** The alert writer: what the store keeps                             *)
(* ===================================================================== *)


Lemma is_ward_inj wc wc' r :
  is_ward wc r = true -> is_ward wc' r = true -> wc = wc'.
Proof.
  unfold is_ward. destruct (r !! "ward_code") as [[]|]; try discriminate.
  intros H1 H2. apply bool_decide_eq_true in H1, H2. congruence.
Qed.

Lemma alerts_of_delete wc wc' t :
  alerts_of wc (apply_call (Delete wc') t)
  = if bool_decide (wc' = wc) then [] else alerts_of wc t.
Proof.
  unfold alerts_of. simpl. induction t as [|r t IH].
  - by case_bool_decide.
  - rewrite !filter_cons.
    destruct (decide (is_ward wc' r = false)) as [Hf|Hf];
      destruct (decide (is_ward wc r = true)) as [Ht|Ht];
      rewrite ?filter_cons, ?decide_True, ?decide_False by assumption;
      rewrite IH; case_bool_decide as Heq; try reflexivity.
    + subst. congruence.
    + apply not_false_is_true in Hf.
      destruct Heq. by apply (is_ward_inj _ _ r).
Qed.

Lemma alerts_of_app wc t1 t2 :
  alerts_of wc (t1 ++ t2) = alerts_of wc t1 ++ alerts_of wc t2.
Proof. apply filter_app. Qed.

Lemma apply_call_spares wc c t :
  spares wc c -> alerts_of wc (apply_call c t) = alerts_of wc t.
Proof.
  destruct c as [chunk|wc'|chunk]; intros H.
  - reflexivity.
  - rewrite alerts_of_delete. by rewrite bool_decide_eq_false_2.
  - simpl in *. rewrite alerts_of_app, H, app_nil_r. reflexivity.
Qed.

Lemma apply_calls_cons c cs t :
  apply_calls (c :: cs) t = apply_calls cs (apply_call c t).
Proof. reflexivity. Qed.

Lemma apply_calls_spare wc cs t :
  Forall (spares wc) cs -> alerts_of wc (apply_calls cs t) = alerts_of wc t.
Proof.
  revert t. induction cs as [|c cs IH]; intros t H; [reflexivity|].
  apply Forall_cons in H as [Hc Hcs].
  rewrite apply_calls_cons, IH by assumption.
  by apply apply_call_spares.
Qed.

Lemma apply_calls_app cs1 cs2 t :
  apply_calls (cs1 ++ cs2) t = apply_calls cs2 (apply_calls cs1 t).
Proof. apply fold_left_app. Qed.

Lemma apply_deletes wc wcs t :
  wc ∈ wcs \/ alerts_of wc t = [] ->
  alerts_of wc (apply_calls (Delete <$> wcs) t) = [].
Proof.
  revert t. induction wcs as [|wc' wcs IH]; intros t H.
  - destruct H as [H|H]; [by apply elem_of_nil in H|exact H].
  - rewrite fmap_cons, apply_calls_cons. apply IH.
    rewrite alerts_of_delete. case_bool_decide as Heq; [by right|].
    destruct H as [H|H]; [|by right].
    apply elem_of_cons in H as [->|H]; [congruence|by left].
Qed.

Lemma apply_inserts chunks t :
  apply_calls (Insert <$> chunks) t = t ++ concat chunks.
Proof.
  revert t. induction chunks as [|c chunks IH]; intros t.
  - simpl. by rewrite app_nil_r.
  - rewrite fmap_cons, apply_calls_cons, IH. simpl.
    by rewrite app_assoc.
Qed.

Lemma alerts_of_none wc (rows : list (gmap string pyval)) (codes : gset string) :
  wc ∉ codes ->
  Forall (fun r => exists wc', r !! "ward_code" = Some (PStr wc') /\ wc' ∈ codes)
    rows ->
  alerts_of wc rows = [].
Proof.
  intros Hwc Hrows. unfold alerts_of.
  induction Hrows as [|r rows (wc' & Hr & Hin) _ IH]; [reflexivity|].
  rewrite filter_cons, decide_False; [exact IH|].
  unfold is_ward. rewrite Hr. intros Heq.
  apply bool_decide_eq_true in Heq. congruence.
Qed.

Lemma alert_calls_spare wc rows codes :
  wc ∉ codes ->
  Forall (fun r => exists wc', r !! "ward_code" = Some (PStr wc') /\ wc' ∈ codes)
    rows ->
  Forall (spares wc) (alert_calls rows codes).
Proof.
  intros Hwc Hrows. unfold alert_calls. apply Forall_app. split.
  - apply Forall_fmap, Forall_forall. intros wc' Hin. simpl.
    apply elem_of_elements in Hin. congruence.
  - unfold chunks_of. rewrite <- list_fmap_compose.
    apply Forall_fmap, Forall_forall. intros i _. simpl.
    apply (alerts_of_none wc _ codes Hwc).
    unfold py_slice. apply Forall_take, Forall_drop, Hrows.
Qed.

Lemma upsert_alerts_nothing fails ws s codes :
  collect_alerts ws ([], ∅) = Ok ([], codes) ->
  upsert_alerts fails ws s = (Ok 0, s).
Proof.
  intros H. unfold upsert_alerts, lift, mbind, M_bind. rewrite H. reflexivity.
Qed.

Lemma upsert_alerts_unfold fails ws s rows codes :
  collect_alerts ws ([], ∅) = Ok (rows, codes) ->
  rows <> [] ->
  upsert_alerts fails ws s
  = match send_all fails (alert_calls rows codes) s with
    | (Ok _, s') => (Ok (length rows), s')
    | (Raise _, s') => (Ok 0, s')
    end.
Proof.
  intros H Hne. unfold upsert_alerts, lift, mbind at 1, M_bind at 1.
  rewrite H. simpl. destruct rows as [|r rows']; [congruence|].
  unfold try_except, mbind, M_bind, alert_calls.
  rewrite delete_wards_send, send_all_app.
  destruct (send_all fails (Delete <$> elements codes) s) as [[[]|e] s1];
    [|reflexivity].
  rewrite insert_chunks_send. fold (chunks_of (r :: rows')).
  destruct (send_all fails _ s1) as [[[]|e] s2]; [|reflexivity].
  rewrite chunks_of_concat. reflexivity.
Qed.

(** The alert writer leaves alone the stored alerts of every ward for which
    the batch carries no alert, whatever fails. *)
Lemma alerts_of_other_wards_kept fails ws s wc :
  ~ has_alerts ws wc ->
  alerts_of wc (weather_alerts (upsert_alerts fails ws s).2)
  = alerts_of wc (weather_alerts s).
Proof.
  intros Hno.
  destruct (collect_alerts ws ([], ∅)) as [[rows codes]|e] eqn:Hc.
  - pose proof (collect_alerts_ok _ _ _ Hc) as (Hcodes & Hrows & _).
    destruct rows as [|r rows'].
    + by rewrite (upsert_alerts_nothing _ _ _ _ Hc).
    + rewrite (upsert_alerts_unfold _ _ _ _ _ Hc) by discriminate.
      destruct (send_all_prefix fails (alert_calls (r :: rows') codes) s)
        as [k Hk].
      destruct (send_all fails _ s) as [[[]|e] s']; simpl in *;
        rewrite Hk; apply apply_calls_spare, Forall_take,
          (alert_calls_spare wc _ codes); auto; by rewrite Hcodes.
  - unfold upsert_alerts, lift, mbind, M_bind. rewrite Hc. reflexivity.
Qed.

Lemma collect_alerts_no_rows ws codes :
  collect_alerts ws ([], ∅) = Ok ([], codes) -> codes = ∅.
Proof.
  intros H. apply collect_alerts_ok in H as (_ & _ & H).
  apply set_eq. intros wc. split; [|set_solver].
  intros Hin. by destruct (H wc Hin).
Qed.

(** C6.  For every batch handed to the alert writer: the stored alerts of a
    ward for which the batch carries no alert are left as they were,
    whatever happens; and when the store accepts every call, the writer
    sends the deletes of all wards with alerts before the first insert, and
    afterwards the stored alerts of each such ward are exactly the rows
    built from the batch for it. *)
Theorem alerts_replaced_per_ward fails ws s :
  (forall wc, ~ has_alerts ws wc ->
     alerts_of wc (weather_alerts (upsert_alerts fails ws s).2)
     = alerts_of wc (weather_alerts s)) /\
  (forall rows codes,
     collect_alerts ws ([], ∅) = Ok (rows, codes) ->
     (forall j, j < length (alert_calls rows codes) ->
        fails (length (calls s) + j) = false) ->
     (upsert_alerts fails ws s).1 = Ok (length rows) /\
     calls (upsert_alerts fails ws s).2
     = calls s ++ (Delete <$> elements codes) ++ (Insert <$> chunks_of rows) /\
     forall wc, has_alerts ws wc ->
       wc ∈ codes /\ alerts_of wc rows <> [] /\
       alerts_of wc (weather_alerts (upsert_alerts fails ws s).2)
       = alerts_of wc rows).
Proof.
  split; [intros wc; apply alerts_of_other_wards_kept|].
  intros rows codes Hc Hok.
  pose proof (collect_alerts_ok _ _ _ Hc) as (Hcodes & Hrows & Hnew).
  destruct rows as [|r rows'].
  - pose proof (collect_alerts_no_rows _ _ Hc) as ->.
    rewrite (upsert_alerts_nothing _ _ _ _ Hc). simpl.
    rewrite elements_empty. repeat split.
    + by rewrite app_nil_r.
    + by apply Hcodes.
    + apply Hcodes in H. set_solver.
    + apply Hcodes in H. set_solver.
  - rewrite (upsert_alerts_unfold _ _ _ _ _ Hc) by discriminate.
    rewrite send_all_ok by exact Hok. simpl. repeat split.
    + by apply Hcodes.
    + apply Hnew. by apply Hcodes.
    + unfold alert_calls. rewrite apply_calls_app, apply_inserts.
      rewrite chunks_of_concat, alerts_of_app, apply_deletes; [reflexivity|].
      left. apply elem_of_elements. by apply Hcodes.
Qed.

Lemma alerts_replaced_per_ward_witness :
  alerts_of "W2"
    (weather_alerts (upsert_alerts no_faults batch_w1_alert store_with_alerts).2)
  = [stored_alert "W2" "Heat"] /\
  (upsert_alerts no_faults batch_w1_alert store_with_alerts).1 = Ok 1 /\
  calls (upsert_alerts no_faults batch_w1_alert store_with_alerts).2
  = [Delete "W1"; Insert [flood_row]] /\
  alerts_of "W1"
    (weather_alerts (upsert_alerts no_faults batch_w1_alert store_with_alerts).2)
  = [flood_row].
Proof.
  destruct (alerts_replaced_per_ward no_faults batch_w1_alert store_with_alerts)
    as [Hkept Hnew].
  split.
  { rewrite Hkept; [reflexivity|].
    intros (d & Hin & Hw & Ht).
    apply elem_of_cons in Hin as [[= ->]|Hin]; [discriminate Hw|].
    apply elem_of_cons in Hin as [[= ->]|Hin]; [discriminate Ht|].
    by apply elem_of_nil in Hin. }
  destruct (Hnew [flood_row] {["W1"]}) as (Hres & Hcalls & Hward);
    [reflexivity|reflexivity|].
  split; [exact Hres|]. split; [exact Hcalls|].
  destruct (Hward "W1") as (_ & _ & H); [|exact H].
  exists record_with_alert. split; [apply elem_of_cons; by left|].
  split; reflexivity.
Defined.

(* ===================================================================== *)
(** ** The alert writer: a store call raises                              *)
(* ===================================================================== *)

Lemma first_failure (f : nat -> bool) (j : nat) :
  f j = true ->
  exists k, k <= j /\ f k = true /\ forall i, i < k -> f i = false.
Proof.
  revert f. induction j as [|j IH]; intros f Hj.
  - exists 0. repeat split; [lia|exact Hj|lia].
  - destruct (f 0) eqn:H0.
    + exists 0. repeat split; [lia|exact H0|lia].
    + destruct (IH (fun i => f (S i)) Hj) as (k & Hk & Hfk & Hbefore).
      exists (S k). repeat split; [lia|exact Hfk|].
      intros [|i] Hi; [exact H0|]. apply Hbefore. lia.
Qed.

(** C7.  When one of the calls of the delete/insert sequence raises, the
    alert writer stops at the first call that raises: the calls after it are
    not sent, what the earlier calls did stays done, and the writer returns
    0 instead of raising. *)
Theorem alert_failure_reports_zero fails ws s rows codes j :
  collect_alerts ws ([], ∅) = Ok (rows, codes) ->
  j < length (alert_calls rows codes) ->
  fails (length (calls s) + j) = true ->
  (upsert_alerts fails ws s).1 = Ok 0 /\
  exists k, k <= j /\ fails (length (calls s) + k) = true /\
    (upsert_alerts fails ws s).2
    = {| weather_alerts :=
           apply_calls (take k (alert_calls rows codes)) (weather_alerts s);
         calls := calls s ++ take (S k) (alert_calls rows codes) |}.
Proof.
  intros Hc Hj Hfail.
  destruct rows as [|r rows'].
  { pose proof (collect_alerts_no_rows _ _ Hc) as ->.
    unfold alert_calls in Hj. rewrite elements_empty in Hj. simpl in Hj. lia. }
  destruct (first_failure (fun i => fails (length (calls s) + i)) j Hfail)
    as (k & Hk & Hfk & Hbefore).
  rewrite (upsert_alerts_unfold _ _ _ _ _ Hc) by discriminate.
  rewrite (send_all_fail fails _ s k) by (auto; lia). simpl.
  split; [reflexivity|]. exists k. auto.
Qed.

Lemma alert_failure_reports_zero_witness :
  (upsert_alerts (fun i => bool_decide (i = 1)) batch_w1_alert
     store_with_alerts).1 = Ok 0 /\
  exists k, k <= 1 /\ bool_decide (0 + k = 1) = true /\
    (upsert_alerts (fun i => bool_decide (i = 1)) batch_w1_alert
       store_with_alerts).2
    = {| weather_alerts :=
           apply_calls (take k (alert_calls [flood_row] {["W1"]}))
             [stored_alert "W1" "Storm"; stored_alert "W2" "Heat"];
         calls := [] ++ take (S k) (alert_calls [flood_row] {["W1"]}) |}.
Proof.
  apply (alert_failure_reports_zero (fun i => bool_decide (i = 1))
           batch_w1_alert store_with_alerts [flood_row] {["W1"]} 1).
  - reflexivity.
  - vm_compute. lia.
  - reflexivity.
Defined.

Example alert_failure_after_delete :
  upsert_alerts (fun i => bool_decide (i = 1)) batch_w1_alert store_with_alerts
  = (Ok 0, {| weather_alerts := [stored_alert "W2" "Heat"];
              calls := [Delete "W1"; Insert [flood_row]] |}).
Proof. reflexivity. Qed.

(* ===================================================================== *)
(** ** The semaphore                                                      *)
(* ===================================================================== *)


Lemma count_app p ts1 ts2 : count p (ts1 ++ ts2) = count p ts1 + count p ts2.
Proof. unfold count. by rewrite filter_app, length_app. Qed.

Lemma count_cons p t ts : count p (t :: ts) = weight (p t) + count p ts.
Proof.
  unfold count. rewrite filter_cons.
  destruct (p t); simpl; reflexivity.
Qed.

Lemma count_insert p ts i t t' :
  ts !! i = Some t ->
  count p (<[i := t']> ts) + weight (p t) = count p ts + weight (p t').
Proof.
  intros Hi.
  rewrite <- (take_drop_middle ts i t Hi) at 2.
  rewrite insert_take_drop by (eapply lookup_lt_Some, Hi).
  rewrite !count_app, !count_cons. lia.
Qed.

Lemma count_ext p q ts :
  Forall (fun t => p t = q t) ts -> count p ts = count q ts.
Proof.
  induction 1 as [|t ts Ht _ IH]; [reflexivity|].
  rewrite !count_cons, Ht, IH. reflexivity.
Qed.

Lemma count_none p ts :
  Forall (fun t => p t = false) ts -> count p ts = 0.
Proof.
  induction 1 as [|t ts Ht _ IH]; [reflexivity|].
  rewrite count_cons, Ht, IH. reflexivity.
Qed.

Lemma task_step_inv provider p t p' t' :
  task_step provider p t p' t' ->
  in_flight t = holds_permit t ->
  in_flight t' = holds_permit t' /\
  p' + weight (holds_permit t') = p + weight (holds_permit t).
Proof.
  intros Hstep. destruct Hstep; unfold in_flight; simpl; intros Hh;
    try (rewrite <- Hh); simpl; split; auto; lia.
Qed.

Lemma step_inv provider batch_size s s' :
  step provider s s' -> sched_inv batch_size s -> sched_inv batch_size s'.
Proof.
  intros Hstep [Hsum Hall]. destruct Hstep as [s i t p' t' Hi Ht|s batch rest _ Hret].
  - pose proof (proj1 (Forall_lookup _ _) Hall i t Hi) as Hh. simpl in Hh.
    destruct (task_step_inv _ _ _ _ _ Ht Hh) as [Hh' Hp].
    pose proof (count_insert holds_permit (tasks s) i t t' Hi) as Hc.
    split; simpl.
    + lia.
    + apply Forall_insert; assumption.
  - split; simpl.
    + rewrite (count_none holds_permit (tasks s)) in Hsum.
      * rewrite count_none; [exact Hsum|].
        apply Forall_fmap, Forall_forall. reflexivity.
      * apply Forall_forall. intros t Hin.
        pose proof (proj1 (Forall_forall _ _) Hall t Hin) as Hf.
        pose proof (proj1 (forallb_forall _ _) Hret t
                      (proj1 (list_elem_of_In _ _) Hin)) as Hr.
        simpl in Hf. rewrite <- Hf. unfold returned, in_flight in *.
        destruct (at_pc t) as [| | |[]]; done.
    + apply Forall_fmap, Forall_forall. reflexivity.
Qed.

Lemma init_inv batch_size wards : sched_inv batch_size (init batch_size wards).
Proof. split; simpl; [unfold count; simpl; lia|constructor]. Qed.

Lemma reachable_inv provider batch_size wards s :
  rtc (step provider) (init batch_size wards) s -> sched_inv batch_size s.
Proof.
  revert s. apply rtc_ind_r.
  - apply init_inv.
  - intros y z _ Hstep Hy. eapply step_inv; eassumption.
Qed.

(** C4.  In every state a run can reach, with any pool size and any ward
    list: at most [batch_size] fetch calls are in flight; every task that is
    in flight, at a request or in a backoff sleep, holds a permit; the
    permits left and the permits held add up to [batch_size]; and a waiting
    task moves on only when a permit is left. *)
Theorem in_flight_bounded provider batch_size wards s :
  rtc (step provider) (init batch_size wards) s ->
  count in_flight (tasks s) <= batch_size /\
  Forall (fun t => in_flight t = true -> holds_permit t = true) (tasks s) /\
  permits s + count holds_permit (tasks s) = batch_size /\
  (forall s' i t t',
     step provider s s' ->
     tasks s !! i = Some t -> at_pc t = Waiting ->
     tasks s' !! i = Some t' -> at_pc t' <> Waiting ->
     0 < permits s).
Proof.
  intros Hreach. destruct (reachable_inv _ _ _ _ Hreach) as [Hsum Hall].
  repeat split.
  - rewrite (count_ext in_flight holds_permit) by exact Hall. lia.
  - eapply Forall_impl; [exact Hall|]. simpl. congruence.
  - exact Hsum.
  - intros s' i t t' Hstep Hi Hw Hi' Hw'.
    destruct Hstep as [s j u p' u' Hj Hu|s batch rest _ _]; simpl in *.
    + destruct (decide (i = j)) as [->|Hne].
      * rewrite Hj in Hi. injection Hi as ->.
        destruct Hu; simpl in *; try discriminate. lia.
      * rewrite list_lookup_insert_ne in Hi' by auto. congruence.
    + apply list_lookup_fmap_Some in Hi' as (w & -> & _). done.
Qed.

Lemma task_step_resume provider p t p' t' :
  task_step provider p t p' t' ->
  pc_ok t ->
  pc_ok t' /\ ward t' = ward t /\ resume provider t' = resume provider t.
Proof.
  intros Hstep. destruct Hstep as [p w|p w k h r Ho|p w k h wait Ho|p w k h Hk
                                  |p w k h Hk];
    unfold pc_ok, resume; simpl; intros Hok.
  - repeat split; lia.
  - repeat split.
    replace (3 - k) with (S (3 - S k)) by lia. simpl. by rewrite Ho.
  - repeat split; [lia|].
    replace (3 - k) with (S (3 - S k)) by lia. simpl. rewrite Ho.
    by destruct (fetch_attempts (provider w) (ward_code w) _).
  - repeat split. lia.
  - repeat split. replace (2 - k) with 0 by lia. reflexivity.
Qed.

(** The interleaving changes no result: whenever a task of a run has
    finished, it has finished with what [fetch_ward_weather] computes for
    its ward. *)
Lemma finished_task_result provider batch_size wards s :
  rtc (step provider) (init batch_size wards) s ->
  Forall (fun t => forall r, at_pc t = Finished r ->
            r = (fetch_ward_weather (provider (ward t))
                   (ward_code (ward t))).2) (tasks s).
Proof.
  intros Hreach.
  assert (Forall (fun t => pc_ok t /\
            resume provider t
            = (fetch_ward_weather (provider (ward t)) (ward_code (ward t))).2)
            (tasks s)) as Hinv.
  { revert s Hreach. apply rtc_ind_r; [constructor|].
    intros y z _ Hstep Hy.
    destruct Hstep as [s i t p' t' Hi Ht|s batch rest _ _]; simpl.
    - destruct (proj1 (Forall_lookup _ _) Hy i t Hi) as [Hok Hres].
      destruct (task_step_resume _ _ _ _ _ Ht Hok) as (Hok' & Hw & Hres').
      apply Forall_insert; [exact Hy|]. split; [exact Hok'|].
      rewrite Hres', Hw. exact Hres.
    - apply Forall_fmap, Forall_forall. intros w _. by split. }
  eapply Forall_impl; [exact Hinv|]. intros t [_ Hres] r Hr.
  unfold resume in Hres. rewrite Hr in Hres. exact Hres.
Qed.

Lemma in_flight_bounded_witness :
  count in_flight (tasks one_in_flight) <= 1 /\
  Forall (fun t => in_flight t = true -> holds_permit t = true)
    (tasks one_in_flight) /\
  permits one_in_flight + count holds_permit (tasks one_in_flight) = 1 /\
  (forall s' i t t',
     step always_down one_in_flight s' ->
     tasks one_in_flight !! i = Some t -> at_pc t = Waiting ->
     tasks s' !! i = Some t' -> at_pc t' <> Waiting ->
     0 < permits one_in_flight).
Proof.
  apply (in_flight_bounded always_down 1 [ward_at 0] one_in_flight).
  eapply rtc_l.
  { exact (step_next_batch always_down (init 1 [ward_at 0]) [ward_at 0] []
             eq_refl eq_refl). }
  eapply rtc_l.
  { exact (step_task always_down
             {| permits := 1; tasks := [launch (ward_at 0)]; later := [] |}
             0 (launch (ward_at 0)) 0 _ eq_refl (acquire always_down 0 (ward_at 0))). }
  apply rtc_refl.
Defined.

(* ===================================================================== *)
(** ** The run and its summary                                            *)
(* ===================================================================== *)

Lemma on_attempt_some ward_code attempt o r :
  on_attempt ward_code attempt o = Return (Ok (Some r)) ->
  exists data, _parse_response data ward_code = Ok r.
Proof.
  unfold on_attempt, on_transport_error.
  destruct o as [status [data|]|]; repeat case_match; try discriminate.
  intros [= Hret]. exists data.
  destruct (_parse_response data ward_code); simpl in Hret; congruence.
Qed.

Lemma fetch_attempts_some provider ward_code attempts r :
  (fetch_attempts provider ward_code attempts).2 = Ok (Some r) ->
  exists data, _parse_response data ward_code = Ok r.
Proof.
  induction attempts as [|attempt rest IH]; simpl; [discriminate|].
  destruct (on_attempt ward_code attempt (provider attempt)) as [r0|wait] eqn:Ho.
  - simpl. intros ->. eapply on_attempt_some, Ho.
  - destruct (fetch_attempts provider ward_code rest) as [tr r']. exact IH.
Qed.

Lemma gather_normalized provider batch results :
  gather provider batch = Ok results ->
  length results = length batch /\
  Forall normalized (batch_results_of results).
Proof.
  intros H. split; [eapply for_each_length, H|].
  apply for_each_Forall2 in H. unfold batch_results_of.
  induction H as [|w [r|] batch results Hw _ IH]; csimpl.
  - constructor.
  - constructor; [|exact IH].
    apply fetch_attempts_some in Hw as (data & Hdata).
    exists data, (ward_code w), r. auto.
  - exact IH.
Qed.

(** A batch that goes through had no successful fetch: it wrote nothing and
    counted every ward as failed. *)
Lemma process_batch_ok provider fails now i batch st s st' s' :
  process_batch provider fails now i batch st s = (Ok st', s') ->
  s' = s /\ all_results st' = all_results st /\
  failed_count st' = failed_count st + length batch.
Proof.
  unfold process_batch, lift, mbind at 1, M_bind at 1.
  destruct (gather provider batch) as [results|e] eqn:Hg; [|discriminate].
  apply gather_normalized in Hg as [Hlen Hnorm].
  destruct (batch_results_of results) as [|r rs] eqn:Hrs.
  - unfold mbind, M_bind, mret, M_ret. simpl. intros [= <- <-]. simpl.
    rewrite app_nil_r, Hlen. repeat split; lia.
  - unfold mbind, M_bind.
    rewrite (weather_writer_KeyError fails (now i) (r :: rs) s) by done.
    discriminate.
Qed.

Lemma batches_ok provider fails now wards batch_size starts st s st' s' :
  batches provider fails now wards batch_size starts st s = (Ok st', s') ->
  s' = s /\ all_results st' = all_results st /\
  failed_count st'
  = failed_count st + length (concat (batch_at wards batch_size <$> starts)).
Proof.
  revert st s. induction starts as [|i starts IH]; intros st s; simpl.
  - unfold mret, M_ret. intros [= <- <-]. repeat split; lia.
  - unfold mbind, M_bind.
    destruct (process_batch _ _ _ _ _ st s) as [[st1|e] s1] eqn:Hp;
      [|discriminate].
    apply process_batch_ok in Hp as (-> & Hr & Hf).
    intros H. apply IH in H as (-> & Hr' & Hf').
    rewrite length_app. repeat split; [congruence|].
    rewrite Hf', Hf. unfold fmap. lia.
Qed.

Lemma batch_at_slice (wards : list WardCoordinate) batch_size i :
  batch_at wards batch_size i = py_slice wards i (i + batch_size).
Proof.
  unfold batch_at. rewrite py_slice_chunk. unfold py_slice.
  destruct (decide (i + batch_size <= length wards)) as [Hle|Hgt].
  - f_equal. lia.
  - rewrite !take_ge; [reflexivity| |]; rewrite length_drop; lia.
Qed.

(** What the summary of a run that completes says.  Since a batch with a
    successful fetch ends in [KeyError], such a run had none. *)
Lemma completed_run_summary provider fails now round1 int_div
    batch_size wards elapsed s sm s' :
  run provider fails now round1 int_div batch_size wards elapsed s
    = (Ok (Some sm), s') ->
  s' = s /\
  total_wards sm = length wards /\
  successful sm + failed sm = total_wards sm /\
  successful sm = 0 /\
  (SFltb (S754_zero false) elapsed = false -> wards_per_second sm = PInt 0).
Proof.
  unfold run. destruct wards as [|w wards'] eqn:Hw; [discriminate|].
  rewrite <- Hw. clear Hw.
  destruct (batch_size <=? 0)%Z eqn:Hb; [discriminate|].
  apply Z.leb_gt in Hb.
  unfold mbind, M_bind.
  destruct (batches _ _ _ _ _ _ _ s) as [[st|e] s1] eqn:Hbs; [|discriminate].
  apply batches_ok in Hbs as (-> & Hr & Hf).
  erewrite list_fmap_ext in Hf; [|intros; apply batch_at_slice].
  rewrite slices_concat in Hf by lia.
  unfold mret, M_ret. intros [= <- <-]. cbn [total_wards successful failed
    wards_per_second all_results failed_count] in *.
  rewrite Hr, Hf. repeat split. intros ->. reflexivity.
Qed.

(** C9 at 120 wards, batch size 50, two wards that never get a response and
    118 that are answered 200: the fetches of the first batch give 49
    records and 1 failure, the weather writer raises [KeyError] on the
    first record, and the run ends there without a summary. *)
Theorem run_120_wards_two_down_raises fails now round1 int_div elapsed s :
  ((fun results => (length results, length (batch_results_of results)))
     <$> gather provider_two_down wards_120) = Ok (120, 118) /\
  ((fun results => (length results, length (batch_results_of results)))
     <$> gather provider_two_down (batch_at wards_120 50 0)) = Ok (50, 49) /\
  run provider_two_down fails now round1 int_div 50 wards_120 elapsed s
  = (Raise (KeyError "latitude"), s).
Proof. repeat split; vm_compute; reflexivity. Qed.

Lemma transport_failure_counts_as_failed_witness :
  fetch_ward_weather (always_down (ward_at 7)) "007"
    = ([Request 0; Sleep 2; Request 1; Sleep 4; Request 2], Ok None) /\
  process_batch always_down no_faults (fun _ => "2024-01-01T00:00:00+00:00") 0
    [ward_at 7] {| all_results := []; failed_count := 0 |} empty_store
  = (Ok {| all_results := []; failed_count := 1 |}, empty_store).
Proof.
  destruct (transport_failure_counts_as_failed always_down no_faults
              (fun _ => "2024-01-01T00:00:00+00:00") (ward_at 7))
    as [Hfetch Hbatch]; [reflexivity|].
  split; [exact Hfetch|].
  exact (Hbatch 0 [] [] {| all_results := []; failed_count := 0 |} empty_store).
Defined.

(* ===================================================================== *)
(** ** More on the provider client                                        *)
(* ===================================================================== *)

Lemma on_attempt_backoff ward_code attempt o wait :
  on_attempt ward_code attempt o = Backoff wait -> wait = 2 ^ (attempt + 1).
Proof.
  unfold on_attempt, on_transport_error.
  destruct o as [status [data|]|]; repeat case_match; congruence.
Qed.

(** X1.  Whatever the provider answers, a fetch leaves one of four traces:
    one, two or three requests, with sleeps of 2 then 4 seconds between
    them and possibly one of 8 seconds after the third.  So it sends at most
    three requests and sleeps at most 14 seconds, and when it has slept all
    14 it returns [None]. *)
Theorem fetch_trace_shapes provider ward_code :
  (fetch_ward_weather provider ward_code).1 ∈ fetch_traces /\
  slept (fetch_ward_weather provider ward_code).1 <= 14 /\
  (slept (fetch_ward_weather provider ward_code).1 = 14 ->
   (fetch_ward_weather provider ward_code).2 = Ok None).
Proof.
  unfold fetch_ward_weather, fetch_traces. simpl.
  destruct (on_attempt ward_code 0 (provider 0)) as [r0|w0] eqn:H0.
  { simpl. repeat split; [set_solver|unfold slept; simpl; lia|].
    unfold slept. simpl. lia. }
  apply on_attempt_backoff in H0 as ->.
  destruct (on_attempt ward_code 1 (provider 1)) as [r1|w1] eqn:H1.
  { simpl. repeat split; [set_solver|unfold slept; simpl; lia|].
    unfold slept. simpl. lia. }
  apply on_attempt_backoff in H1 as ->.
  destruct (on_attempt ward_code 2 (provider 2)) as [r2|w2] eqn:H2.
  { simpl. repeat split; [set_solver|unfold slept; simpl; lia|].
    unfold slept. simpl. lia. }
  apply on_attempt_backoff in H2 as ->.
  simpl. repeat split; [set_solver|unfold slept; simpl; lia].
Qed.

(** X2.  A status other than 200 and 429 whose body can be read ends the
    fetch at once: one request, no sleep, no retry, result [None]. *)
Theorem other_status_is_final provider ward_code status body :
  provider 0 = Response status (Some body) ->
  status <> 200%Z -> status <> 429%Z ->
  fetch_ward_weather provider ward_code = ([Request 0], Ok None).
Proof.
  intros H0 H200 H429. unfold fetch_ward_weather. simpl. rewrite H0. simpl.
  rewrite (proj2 (Z.eqb_neq _ _) H200), (proj2 (Z.eqb_neq _ _) H429).
  reflexivity.
Qed.

Lemma other_status_is_final_witness :
  fetch_ward_weather (fun _ => Response 503 (Some (PStr "unavailable"))) "W1"
  = ([Request 0], Ok None).
Proof.
  apply (other_status_is_final _ "W1" 503%Z (PStr "unavailable"));
    [reflexivity|discriminate|discriminate].
Defined.

(** X3.  A ward that is rate limited on all three attempts: the fetch
    sleeps 2, 4 and then 8 seconds, the last sleep after the last request,
    and only then returns [None]. *)
Theorem rate_limited_throughout provider ward_code :
  (forall k, k < 3 -> exists body, provider k = Response 429 body) ->
  fetch_ward_weather provider ward_code
  = ([Request 0; Sleep 2; Request 1; Sleep 4; Request 2; Sleep 8], Ok None).
Proof.
  intros H.
  destruct (H 0) as [b0 H0]; [lia|].
  destruct (H 1) as [b1 H1]; [lia|].
  destruct (H 2) as [b2 H2]; [lia|].
  unfold fetch_ward_weather. simpl. rewrite H0, H1, H2. reflexivity.
Qed.

Lemma rate_limited_throughout_witness :
  fetch_ward_weather (fun _ => Response 429 None) "W1"
  = ([Request 0; Sleep 2; Request 1; Sleep 4; Request 2; Sleep 8], Ok None).
Proof.
  apply (rate_limited_throughout (fun _ => Response 429 None) "W1").
  intros k _. exists None. reflexivity.
Defined.

Lemma on_attempt_some_200 ward_code attempt o r :
  on_attempt ward_code attempt o = Return (Ok (Some r)) ->
  exists data, o = Response 200 (Some data) /\
    _parse_response data ward_code = Ok r.
Proof.
  unfold on_attempt, on_transport_error.
  destruct o as [status [data|]|]; repeat case_match; try discriminate.
  intros [= Hret]. exists data.
  match goal with Hs : (status =? 200)%Z = true |- _ =>
    apply Z.eqb_eq in Hs; subst status end.
  split; [reflexivity|].
  destruct (_parse_response data ward_code); simpl in Hret; congruence.
Qed.

Lemma fetch_attempts_some_200 provider ward_code attempts r :
  (fetch_attempts provider ward_code attempts).2 = Ok (Some r) ->
  exists k data, k ∈ attempts /\ provider k = Response 200 (Some data) /\
    _parse_response data ward_code = Ok r.
Proof.
  induction attempts as [|attempt rest IH]; simpl; [discriminate|].
  destruct (on_attempt ward_code attempt (provider attempt)) as [r0|wait] eqn:Ho.
  - simpl. intros ->. apply on_attempt_some_200 in Ho as (data & Hp & Hd).
    exists attempt, data. split; [apply elem_of_cons; by left|auto].
  - destruct (fetch_attempts provider ward_code rest) as [tr r'].
    intros H. apply IH in H as (k & data & Hin & Hp & Hd).
    exists k, data. split; [apply elem_of_cons; by right|auto].
Qed.

(** X4.  A fetch returns a record only when one of its three requests was
    answered 200 with a readable body; the record is what the normalizer
    makes of that body, and it carries the ward's code and the body
    itself. *)
Theorem fetched_record_origin provider ward_code r :
  (fetch_ward_weather provider ward_code).2 = Ok (Some r) ->
  exists k data,
    k < 3 /\ provider k = Response 200 (Some data) /\
    _parse_response data ward_code = Ok r /\
    r !! "ward_code" = Some (PStr ward_code) /\
    r !! "raw" = Some data.
Proof.
  intros H. apply fetch_attempts_some_200 in H as (k & data & Hin & Hp & Hd).
  exists k, data. split.
  { apply elem_of_seq in Hin. lia. }
  split; [exact Hp|]. split; [exact Hd|].
  apply parse_response_ok in Hd
    as (d & c & cond & fc & al & days & raw_alerts & forecast_days & alerts
        & -> & _ & _ & _ & _ & _ & _ & _ & _ & ->).
  split; reflexivity.
Qed.

Lemma fetched_record_origin_witness :
  exists k data,
    k < 3 /\
    (fun k => if k <? 2 then TransportFailure
              else Response 200 (Some payload_empty)) k
    = Response 200 (Some data) /\
    _parse_response data "W1" = Ok record_empty /\
    record_empty !! "ward_code" = Some (PStr "W1") /\
    record_empty !! "raw" = Some data.
Proof.
  apply (fetched_record_origin
           (fun k => if k <? 2 then TransportFailure
                     else Response 200 (Some payload_empty)) "W1" record_empty).
  reflexivity.
Defined.

(* ===================================================================== *)
(** ** More on the normalizer                                             *)
(* ===================================================================== *)

Lemma parse_forecast_day_keys day out :
  parse_forecast_day day = Ok out -> has_keys day_keys out.
Proof.
  unfold parse_forecast_day. intros H.
  apply bind_ok in H as (day_info & Hdi & H).
  apply bind_ok in H as (astro & Has & H).
  apply bind_ok in H as (day_condition & Hdc & H).
  apply bind_ok in H as (o & Ho & H). injection H as <-.
  exists o. split; [reflexivity|].
  destruct day as [| | | | | |dd]; try discriminate Hdi;
    destruct day_info as [| | | | | |di]; try discriminate Hdc;
    destruct astro as [| | | | | |da]; try discriminate Ho;
    destruct day_condition as [| | | | | |dc]; try discriminate Ho.
  cbn in Ho. injection Ho as <-. reflexivity.
Qed.

Lemma parse_alert_keys alert out :
  parse_alert alert = Ok out -> has_keys alert_keys out.
Proof.
  unfold parse_alert. intros H.
  apply bind_ok in H as (o & Ho & H). injection H as <-.
  exists o. split; [reflexivity|].
  destruct alert as [| | | | | |a]; try discriminate Ho.
  cbn in Ho. injection Ho as <-. reflexivity.
Qed.

(** X5.  Every record the normalizer returns has exactly the twelve keys
    of [record_keys], whatever the payload lacks; each of its forecast days
    has exactly the fourteen keys of [day_keys] and each of its alerts the
    eleven keys of [alert_keys]. *)
Theorem normalized_record_schema data ward_code r :
  _parse_response data ward_code = Ok r ->
  dom r = list_to_set record_keys /\
  exists forecast_days alerts,
    r !! "forecast_days" = Some (PList forecast_days) /\
    Forall (has_keys day_keys) forecast_days /\
    r !! "alerts" = Some (PList alerts) /\
    Forall (has_keys alert_keys) alerts.
Proof.
  intros H.
  apply parse_response_ok in H
    as (d & c & cond & fc & al & days & raw_alerts & forecast_days & alerts
        & -> & _ & _ & _ & _ & _ & Hfd & _ & Halerts & ->).
  split; [reflexivity|].
  exists forecast_days, alerts. repeat split.
  - eapply for_each_Forall; [|exact Hfd]. intros x y. apply parse_forecast_day_keys.
  - eapply for_each_Forall; [|exact Halerts]. intros x y. apply parse_alert_keys.
Qed.

Lemma normalized_record_schema_witness :
  dom record_with_alert = list_to_set record_keys /\
  exists forecast_days alerts,
    record_with_alert !! "forecast_days" = Some (PList forecast_days) /\
    Forall (has_keys day_keys) forecast_days /\
    record_with_alert !! "alerts" = Some (PList alerts) /\
    Forall (has_keys alert_keys) alerts.
Proof.
  apply (normalized_record_schema payload_with_alert "W1" record_with_alert).
  reflexivity.
Defined.

Lemma for_each_total {A B : Type} (f : A -> result B) (xs : list A) :
  Forall (fun x => exists y, f x = Ok y) xs ->
  exists ys, for_each f xs = Ok ys /\ length ys = length xs.
Proof.
  induction 1 as [|x xs [y Hy] _ (ys & Hys & Hlen)]; simpl.
  - exists []. auto.
  - exists (y :: ys). rewrite Hy, Hys. simpl. auto.
Qed.

Lemma dict_or_absent_section d k :
  dict_or_absent d k = true -> default (PDict ∅) (d !! k) = PDict (section d k).
Proof.
  unfold dict_or_absent, section.
  destruct (d !! k) as [[]|]; simpl; congruence.
Qed.

Lemma list_of_items p d k :
  list_of p d k = true ->
  default (PList []) (d !! k) = PList (items d k) /\
  forallb p (items d k) = true.
Proof.
  unfold list_of, items.
  destruct (d !! k) as [[]|]; simpl; try discriminate; auto.
Qed.

Lemma parse_forecast_day_total day :
  day_shaped day = true -> exists out, parse_forecast_day day = Ok out.
Proof.
  destruct day as [| | | | | |dd]; try discriminate. simpl.
  intros H. apply andb_prop in H as [H Hc]. apply andb_prop in H as [Hd Ha].
  unfold parse_forecast_day. simpl.
  rewrite (dict_or_absent_section _ _ Hd), (dict_or_absent_section _ _ Ha).
  simpl. rewrite (dict_or_absent_section _ _ Hc). cbn. eauto.
Qed.

Lemma parse_alert_total alert :
  is_dict alert = true -> exists out, parse_alert alert = Ok out.
Proof.
  destruct alert as [| | | | | |a]; try discriminate. intros _.
  unfold parse_alert. cbn. eauto.
Qed.

Lemma forallb_Forall_ex {A B : Type} (p : A -> bool) (f : A -> result B)
    (xs : list A) :
  (forall x, p x = true -> exists y, f x = Ok y) ->
  forallb p xs = true -> Forall (fun x => exists y, f x = Ok y) xs.
Proof.
  intros Hp H. apply Forall_forall. intros x Hin. apply Hp.
  eapply (proj1 (forallb_forall _ _) H), list_elem_of_In, Hin.
Qed.

(** X6.  On every payload of the documented shape the normalizer returns
    a record, and the record has as many forecast days and as many alerts
    as the payload lists, in particular more than three days when the
    provider sends more. *)
Theorem normalizer_total_on_shaped d ward_code :
  payload_shaped (PDict d) = true ->
  exists r forecast_days alerts,
    _parse_response (PDict d) ward_code = Ok r /\
    r !! "forecast_days" = Some (PList forecast_days) /\
    length forecast_days
    = length (items (section d "forecast") "forecastday") /\
    r !! "alerts" = Some (PList alerts) /\
    length alerts = length (items (section d "alerts") "alert").
Proof.
  simpl. intros H.
  apply andb_prop in H as [H Hal]. apply andb_prop in H as [H Hfd].
  apply andb_prop in H as [H Hcond]. apply andb_prop in H as [H Ha].
  apply andb_prop in H as [Hc Hf].
  apply list_of_items in Hfd as [Hfd Hdays], Hal as [Hal Halerts].
  destruct (for_each_total parse_forecast_day
              (items (section d "forecast") "forecastday"))
    as (forecast_days & Hfds & Hlen1).
  { eapply forallb_Forall_ex; [apply parse_forecast_day_total|exact Hdays]. }
  destruct (for_each_total parse_alert (items (section d "alerts") "alert"))
    as (alerts & Hals & Hlen2).
  { eapply forallb_Forall_ex; [apply parse_alert_total|exact Halerts]. }
  unfold _parse_response. simpl.
  rewrite (dict_or_absent_section _ _ Hc), (dict_or_absent_section _ _ Hf),
    (dict_or_absent_section _ _ Ha). simpl.
  rewrite (dict_or_absent_section _ _ Hcond), Hfd. simpl.
  rewrite Hfds. simpl. rewrite Hal. simpl. rewrite Hals. cbn.
  eexists _, forecast_days, alerts. split; [reflexivity|].
  repeat split; assumption.
Qed.

Lemma normalizer_total_on_shaped_witness :
  exists r forecast_days alerts,
    _parse_response payload_with_alert "W1" = Ok r /\
    r !! "forecast_days" = Some (PList forecast_days) /\
    length forecast_days = 1 /\
    r !! "alerts" = Some (PList alerts) /\
    length alerts = 1.
Proof.
  exact (normalizer_total_on_shaped
           (py_dict
              [ ("current", PDict (py_dict
                   [ ("temp_c", PInt 24); ("condition", sunny);
                     ("wind_kph", PInt 11); ("humidity", PInt 48);
                     ("is_day", PInt 1); ("precip_mm", PInt 0) ]));
                ("forecast",
                 PDict (py_dict [("forecastday", PList [forecast_day])]));
                ("alerts", PDict (py_dict [("alert", PList [flood_alert])])) ])
           "W1" eq_refl).
Defined.

(* ===================================================================== *)
(** ** More on the weather writer                                         *)
(* ===================================================================== *)

Ltac split_lookups H d :=
  repeat (match type of H with
          | context [d !! ?k] =>
              let E := fresh "E" in
              destruct (d !! k) eqn:E; [|discriminate H]
          end; cbn in H).

Lemma weather_row_ok now d row :
  weather_row now (PDict d) = Ok row ->
  Forall (fun k => is_Some (d !! k)) required_keys /\
  row = py_dict
    [ ("ward_code", default PNone (d !! "ward_code"));
      ("latitude", default PNone (d !! "latitude"));
      ("longitude", default PNone (d !! "longitude"));
      ("temperature_c", default PNone (d !! "temperature_c"));
      ("condition_text", default PNone (d !! "condition_text"));
      ("condition_icon", default PNone (d !! "condition_icon"));
      ("wind_kph", default PNone (d !! "wind_kph"));
      ("humidity", default PNone (d !! "humidity"));
      ("is_day", default PNone (d !! "is_day"));
      ("precip_mm", default PNone (d !! "precip_mm"));
      ("daily_forecast", default PNone (d !! "forecast_days"));
      ("alerts_summary", default PNone (d !! "alerts_summary"));
      ("raw_response", default PNone (d !! "raw"));
      ("fetched_at", PStr now);
      ("updated_at", PStr now) ].
Proof.
  unfold weather_row, dict_of, py_getitem. intros H. cbn in H.
  split_lookups H d. injection H as <-.
  split; [|reflexivity].
  unfold required_keys. repeat constructor;
    match goal with |- is_Some (d !! ?k) =>
      match goal with E : d !! k = Some _ |- _ => rewrite E; eauto end end.
Qed.

(** X7.  When a result has every key the weather writer reads, the row it
    builds has exactly the fifteen columns of [row_columns]: eleven taken
    under the same name, [daily_forecast] from [forecast_days],
    [raw_response] from [raw], and the one timestamp in both [fetched_at]
    and [updated_at].  The [alerts] list of the result does not reach the
    row. *)
Theorem weather_row_columns now d row :
  weather_row now (PDict d) = Ok row ->
  dom row = list_to_set row_columns /\
  Forall (fun k => row !! k = d !! k) copied_columns /\
  row !! "daily_forecast" = d !! "forecast_days" /\
  row !! "raw_response" = d !! "raw" /\
  row !! "fetched_at" = Some (PStr now) /\
  row !! "updated_at" = Some (PStr now) /\
  row !! "alerts" = None.
Proof.
  intros H. apply weather_row_ok in H as [Hreq ->].
  unfold required_keys in Hreq.
  repeat match goal with
         | H : Forall _ (_ :: _) |- _ => apply Forall_cons in H as [[? ?] H]
         end.
  split; [reflexivity|].
  unfold copied_columns.
  repeat split; repeat constructor; cbn;
    repeat match goal with E : d !! _ = Some _ |- _ => rewrite ?E; clear E end;
    reflexivity.
Qed.

Lemma weather_row_columns_witness :
  dom (row_with_coordinates "2024-01-01T00:00:00+00:00")
    = list_to_set row_columns /\
  Forall (fun k => row_with_coordinates "2024-01-01T00:00:00+00:00" !! k
                   = record_with_coordinates !! k) copied_columns /\
  row_with_coordinates "2024-01-01T00:00:00+00:00" !! "daily_forecast"
    = record_with_coordinates !! "forecast_days" /\
  row_with_coordinates "2024-01-01T00:00:00+00:00" !! "raw_response"
    = record_with_coordinates !! "raw" /\
  row_with_coordinates "2024-01-01T00:00:00+00:00" !! "fetched_at"
    = Some (PStr "2024-01-01T00:00:00+00:00") /\
  row_with_coordinates "2024-01-01T00:00:00+00:00" !! "updated_at"
    = Some (PStr "2024-01-01T00:00:00+00:00") /\
  row_with_coordinates "2024-01-01T00:00:00+00:00" !! "alerts" = None.
Proof.
  apply (weather_row_columns "2024-01-01T00:00:00+00:00"
           record_with_coordinates). reflexivity.
Defined.

Lemma for_each_raises {A B : Type} (f : A -> result B) (xs : list A) (x : A) :
  x ∈ xs -> (exists e, f x = Raise e) -> exists e, for_each f xs = Raise e.
Proof.
  intros Hin [e He]. induction xs as [|x' xs IH]; [by apply elem_of_nil in Hin|].
  simpl. destruct (f x') as [y|e'] eqn:Hx'; [|eauto]. simpl.
  apply elem_of_cons in Hin as [->|Hin]; [congruence|].
  destruct (IH Hin) as [e'' ->]. simpl. eauto.
Qed.

(** X8.  One result that lacks one of the keys the weather writer reads
    makes the writer raise for the whole batch before it sends anything: the
    rows of the other wards of the batch are not written either. *)
Theorem missing_key_fails_whole_batch fails now (ws : list pyval) s d k :
  PDict d ∈ ws ->
  k ∈ required_keys ->
  d !! k = None ->
  exists e, upsert_weather_batch fails now ws s = (Raise e, s).
Proof.
  intros Hin Hk Hnone.
  destruct (for_each_raises (weather_row now) ws (PDict d) Hin) as [e He].
  { destruct (weather_row now (PDict d)) as [row|e] eqn:Hrow; [|eauto].
    apply weather_row_ok in Hrow as [Hreq _].
    pose proof (proj1 (Forall_forall _ _) Hreq k Hk) as [v Hv]. congruence. }
  exists e. unfold upsert_weather_batch, lift, mbind, M_bind. by rewrite He.
Qed.

Lemma missing_key_fails_whole_batch_witness :
  exists e,
    upsert_weather_batch no_faults "2024-01-01T00:00:00+00:00"
      [PDict record_with_coordinates; PDict record_empty] empty_store
    = (Raise e, empty_store).
Proof.
  apply (missing_key_fails_whole_batch no_faults "2024-01-01T00:00:00+00:00"
           [PDict record_with_coordinates; PDict record_empty] empty_store
           record_empty "longitude").
  - apply elem_of_cons. right. apply elem_of_cons. by left.
  - unfold required_keys. apply elem_of_cons. right. apply elem_of_cons.
    right. apply elem_of_cons. by left.
  - reflexivity.
Defined.

(* ===================================================================== *)
(** ** More on the alert writer                                           *)
(* ===================================================================== *)

Lemma for_each_fmap {A B : Type} (f : A -> result B) (g : A -> B)
    (xs : list A) :
  Forall (fun x => f x = Ok (g x)) xs -> for_each f xs = Ok (g <$> xs).
Proof.
  induction 1 as [|x xs Hx _ IH]; [reflexivity|].
  simpl. rewrite Hx, IH. reflexivity.
Qed.

Lemma alert_row_of_parsed ward_code raw out :
  parse_alert raw = Ok out ->
  alert_row (PStr ward_code) out = Ok (with_ward ward_code out) /\
  with_ward ward_code out !! "ward_code" = Some (PStr ward_code) /\
  forall a, raw = PDict a ->
    with_ward ward_code out !! "description"
    = Some (default PNone (a !! "desc")).
Proof.
  unfold parse_alert. intros H.
  apply bind_ok in H as (o & Ho & H). injection H as <-.
  destruct raw as [| | | | | |a]; try discriminate Ho.
  cbn in Ho. injection Ho as <-.
  repeat split. intros a' [= <-]. reflexivity.
Qed.

Lemma collect_alerts_of_dict acc r ward_code alerts rows :
  r !! "alerts" = Some (PList alerts) ->
  r !! "ward_code" = Some (PStr ward_code) ->
  for_each (alert_row (PStr ward_code)) alerts = Ok rows ->
  collect_alerts_of acc (PDict r)
  = Ok (match alerts with
        | [] => acc
        | _ => (acc.1 ++ rows, {[ward_code]} ∪ acc.2)
        end).
Proof.
  intros Ha Hw Hrows. unfold collect_alerts_of. simpl. rewrite Ha. simpl.
  destruct alerts as [|a alerts']; simpl; [reflexivity|].
  rewrite Hw. simpl in *. rewrite Hrows. reflexivity.
Qed.

Lemma collect_alerts_of_normalized acc data ward_code r :
  _parse_response data ward_code = Ok r ->
  collect_alerts_of acc (PDict r)
  = Ok (acc.1 ++ (with_ward ward_code <$> alerts_in (PDict r)),
        match alerts_in (PDict r) with
        | [] => acc.2
        | _ => {[ward_code]} ∪ acc.2
        end).
Proof.
  intros H.
  apply parse_response_ok in H
    as (d & c & cond & fc & al & days & raw_alerts & forecast_days & alerts
        & -> & _ & _ & _ & _ & _ & _ & _ & Halerts & ->).
  assert (for_each (alert_row (PStr ward_code)) alerts
          = Ok (with_ward ward_code <$> alerts)) as Hrows.
  { apply for_each_fmap. apply for_each_Forall2 in Halerts.
    induction Halerts as [|x y xs ys Hxy _ IH]; constructor; [|exact IH].
    by apply (alert_row_of_parsed ward_code x y). }
  erewrite collect_alerts_of_dict; [|reflexivity|reflexivity|exact Hrows].
  unfold alerts_in, items.
  match goal with |- context [?m !! "alerts"] =>
    change (m !! "alerts") with (Some (PList alerts)) end.
  destruct alerts; simpl; [|reflexivity].
  rewrite app_nil_r. by destruct acc.
Qed.

(** X9.  What the alert writer collects from a record of the normalizer:
    one row per alert of the record, which is the alert as the normalizer
    built it with the ward's code added; so the [desc] of the provider's
    alert arrives in the column [description].  The ward is marked for
    deletion exactly when the record has an alert. *)
Theorem alert_rows_of_normalized data ward_code r :
  _parse_response data ward_code = Ok r ->
  collect_alerts [PDict r] ([], ∅)
  = Ok (with_ward ward_code <$> alerts_in (PDict r),
        match alerts_in (PDict r) with
        | [] => ∅
        | _ => {[ward_code]}
        end) /\
  forall raw out,
    parse_alert (PDict raw) = Ok out ->
    with_ward ward_code out !! "ward_code" = Some (PStr ward_code) /\
    with_ward ward_code out !! "description"
    = Some (default PNone (raw !! "desc")).
Proof.
  intros H. split.
  - simpl. rewrite (collect_alerts_of_normalized _ _ _ _ H). simpl.
    destruct (items r "alerts"); [reflexivity|].
    by rewrite (right_id_L ∅ (∪)).
  - intros raw out Hout.
    destruct (alert_row_of_parsed ward_code _ _ Hout) as (_ & Hw & Hd).
    split; [exact Hw|]. by apply Hd.
Qed.

Lemma alert_rows_of_normalized_witness :
  collect_alerts [PDict record_with_alert] ([], ∅)
  = Ok ([flood_row], {["W1"]}).
Proof.
  exact (proj1 (alert_rows_of_normalized payload_with_alert "W1"
                  record_with_alert eq_refl)).
Defined.

Lemma collect_alerts_normalized ws acc :
  Forall normalized ws ->
  exists rows codes,
    collect_alerts ws acc = Ok (acc.1 ++ rows, codes) /\
    length rows = sum_list ((fun w => length (alerts_in w)) <$> ws).
Proof.
  intros H. revert acc.
  induction H as [|w ws (data & wc & r & Hr & ->) _ IH]; intros acc.
  - exists [], acc.2. simpl. rewrite app_nil_r. by destruct acc.
  - simpl. rewrite (collect_alerts_of_normalized _ _ _ _ Hr). simpl.
    destruct (IH (acc.1 ++ (with_ward wc <$> alerts_in (PDict r)),
                  match alerts_in (PDict r) with
                  | [] => acc.2
                  | _ => {[wc]} ∪ acc.2
                  end)) as (rows & codes & Hc & Hlen).
    exists ((with_ward wc <$> alerts_in (PDict r)) ++ rows), codes.
    simpl in Hc. rewrite Hc, app_assoc. split; [reflexivity|].
    rewrite length_app, length_fmap, Hlen. reflexivity.
Qed.

(** X10.  The alert writer never raises on records of the normalizer,
    whatever the store does; and when the store accepts every call it
    returns the number of alerts the records carry. *)
Theorem alert_writer_accepts_normalized fails ws s :
  Forall normalized ws ->
  (exists n s', upsert_alerts fails ws s = (Ok n, s')) /\
  ((forall i, fails i = false) ->
   (upsert_alerts fails ws s).1
   = Ok (sum_list ((fun w => length (alerts_in w)) <$> ws))).
Proof.
  intros Hn.
  destruct (collect_alerts_normalized ws ([], ∅) Hn)
    as (rows & codes & Hc & Hlen). simpl in Hc.
  destruct rows as [|row rows'].
  - rewrite (upsert_alerts_nothing _ _ _ _ Hc). split; [eauto|].
    intros _. simpl in *. by rewrite <- Hlen.
  - rewrite (upsert_alerts_unfold _ _ _ _ _ Hc) by discriminate. split.
    + destruct (send_all fails _ s) as [[[]|e] s']; eauto.
    + intros Hok. rewrite send_all_ok by (intros; apply Hok).
      simpl. by rewrite <- Hlen.
Qed.

Lemma alert_writer_accepts_normalized_witness :
  (exists n s',
     upsert_alerts first_call_fails [PDict record_with_alert; PDict record_empty]
       store_with_alerts = (Ok n, s')) /\
  ((forall i, first_call_fails i = false) ->
   (upsert_alerts first_call_fails
      [PDict record_with_alert; PDict record_empty] store_with_alerts).1
   = Ok 1).
Proof.
  apply (alert_writer_accepts_normalized first_call_fails
           [PDict record_with_alert; PDict record_empty] store_with_alerts).
  constructor; [|constructor; [|constructor]].
  - exists payload_with_alert, "W1", record_with_alert. split; reflexivity.
  - exists payload_empty, "W1", record_empty. split; reflexivity.
Defined.

Lemma collect_alerts_without_alerts ws acc :
  Forall (fun w => exists d, w = PDict d /\
            py_truthy (default PNone (d !! "alerts")) = false) ws ->
  collect_alerts ws acc = Ok acc.
Proof.
  induction 1 as [|w ws (d & -> & Hd) _ IH]; [reflexivity|].
  simpl. unfold collect_alerts_of. simpl. rewrite Hd. simpl. exact IH.
Qed.

(** X11.  A batch in which no result carries an alert, the empty batch
    included, makes the alert writer return 0 without sending anything to
    the store: no delete, no insert. *)
Theorem no_alerts_no_store_call fails ws s :
  Forall (fun w => exists d, w = PDict d /\
            py_truthy (default PNone (d !! "alerts")) = false) ws ->
  upsert_alerts fails ws s = (Ok 0, s).
Proof.
  intros H. apply (upsert_alerts_nothing fails ws s ∅).
  by apply collect_alerts_without_alerts.
Qed.

Lemma no_alerts_no_store_call_witness :
  upsert_alerts first_call_fails
    [PDict record_empty; PDict (<["ward_code" := PStr "W2"]> record_empty)]
    store_with_alerts
  = (Ok 0, store_with_alerts).
Proof.
  apply (no_alerts_no_store_call first_call_fails
           [PDict record_empty; PDict (<["ward_code" := PStr "W2"]> record_empty)]
           store_with_alerts).
  constructor; [|constructor; [|constructor]].
  - exists record_empty. split; reflexivity.
  - exists (<["ward_code" := PStr "W2"]> record_empty). split; reflexivity.
Defined.

Lemma kept_cons wc wcs r :
  kept (wc :: wcs) r = true <-> is_ward wc r = false /\ kept wcs r = true.
Proof.
  unfold kept. simpl. rewrite andb_true_iff, negb_true_iff. reflexivity.
Qed.

Lemma apply_deletes_filter wcs t :
  apply_calls (Delete <$> wcs) t = filter (fun r => kept wcs r = true) t.
Proof.
  revert t. induction wcs as [|wc wcs IH]; intros t.
  - simpl. induction t as [|r t IHt]; [reflexivity|].
    rewrite filter_cons_True by reflexivity. by rewrite <- IHt.
  - rewrite fmap_cons, apply_calls_cons, IH. unfold apply_call.
    rewrite list_filter_filter. apply list_filter_iff.
    intros r. rewrite kept_cons. tauto.
Qed.

Lemma kept_rows_none (rows : list (gmap string pyval)) (codes : gset string) :
  Forall (fun r => exists wc, r !! "ward_code" = Some (PStr wc) /\ wc ∈ codes)
    rows ->
  filter (fun r => kept (elements codes) r = true) rows = [].
Proof.
  induction 1 as [|r rows (wc & Hr & Hin) _ IH]; [reflexivity|].
  rewrite filter_cons_False; [exact IH|].
  unfold kept. intros Hk.
  pose proof (proj1 (forallb_forall _ _) Hk wc) as Hwc.
  unfold is_ward in Hwc. rewrite Hr in Hwc.
  rewrite bool_decide_eq_true_2 in Hwc by reflexivity.
  specialize (Hwc (proj1 (list_elem_of_In _ _)
                     (proj2 (elem_of_elements _ _) Hin))).
  discriminate Hwc.
Qed.

(** X12.  With a store that accepts every call, sending the same batch to
    the alert writer a second time changes nothing: the stored alerts are
    the same after the second call as after the first, and the count
    returned is the same. *)
Theorem alert_writer_idempotent fails ws s :
  (forall i, fails i = false) ->
  weather_alerts (upsert_alerts fails ws (upsert_alerts fails ws s).2).2
  = weather_alerts (upsert_alerts fails ws s).2 /\
  (upsert_alerts fails ws (upsert_alerts fails ws s).2).1
  = (upsert_alerts fails ws s).1.
Proof.
  intros Hok.
  destruct (collect_alerts ws ([], ∅)) as [[rows codes]|e] eqn:Hc.
  - pose proof (collect_alerts_ok _ _ _ Hc) as (_ & Hrows & _).
    destruct rows as [|row rows'].
    + rewrite !(upsert_alerts_nothing _ _ _ _ Hc). split; reflexivity.
    + rewrite !(upsert_alerts_unfold _ _ _ _ _ Hc) by discriminate.
      rewrite (send_all_ok fails _ s) by (intros; apply Hok). simpl.
      rewrite send_all_ok by (intros; apply Hok). simpl.
      split; [|reflexivity].
      unfold alert_calls.
      rewrite !apply_calls_app, !apply_inserts, !chunks_of_concat.
      rewrite !apply_deletes_filter, filter_app.
      rewrite (kept_rows_none _ _ Hrows), app_nil_r.
      rewrite list_filter_filter. f_equal.
      apply list_filter_iff. intros r. tauto.
  - assert (forall s0, upsert_alerts fails ws s0 = (Raise e, s0)) as Hraise.
    { intros s0. unfold upsert_alerts, lift, mbind, M_bind. by rewrite Hc. }
    rewrite !Hraise. split; reflexivity.
Qed.

Lemma alert_writer_idempotent_witness :
  weather_alerts
    (upsert_alerts no_faults batch_w1_alert
       (upsert_alerts no_faults batch_w1_alert store_with_alerts).2).2
  = [stored_alert "W2" "Heat"; flood_row] /\
  (upsert_alerts no_faults batch_w1_alert
     (upsert_alerts no_faults batch_w1_alert store_with_alerts).2).1
  = Ok 1.
Proof.
  apply (alert_writer_idempotent no_faults batch_w1_alert store_with_alerts).
  reflexivity.
Defined.

(* ===================================================================== *)
(** ** The batches of a run                                               *)
(* ===================================================================== *)

Lemma range_step_last (len n : nat) :
  0 < n -> 0 < len -> ((len + n - 1) / n - 1) * n < len.
Proof.
  intros Hn Hlen.
  pose proof (Nat.div_mod_eq (len + n - 1) n) as Hdiv.
  pose proof (Nat.mod_upper_bound (len + n - 1) n) as Hmod.
  assert (0 < (len + n - 1) / n) by (apply Nat.div_str_pos; lia).
  nia.
Qed.

Lemma batch_at_length (wards : list WardCoordinate) batch_size i :
  length (batch_at wards batch_size i)
  = Nat.min batch_size (length wards - i).
Proof.
  unfold batch_at, py_slice. rewrite length_take, length_drop. lia.
Qed.

Lemma batches_of_lookup (wards : list WardCoordinate) batch_size i b :
  batches_of wards batch_size !! i = Some b ->
  b = batch_at wards batch_size (i * batch_size) /\
  i < (length wards + batch_size - 1) / batch_size.
Proof.
  unfold batches_of, py_range_step. rewrite <- list_fmap_compose.
  intros H. apply list_lookup_fmap_Some in H as (k & -> & Hk).
  apply lookup_seq in Hk as [-> Hlt]. simpl. auto.
Qed.

(** X13.  For a positive batch size the batches of a run, taken in order,
    are the ward list: every ward is in exactly one batch.  There are
    ceil(n / batch_size) of them, none is empty, none has more than
    [batch_size] wards, and all but the last have exactly [batch_size]. *)
Theorem batches_partition (wards : list WardCoordinate) batch_size :
  0 < batch_size ->
  concat (batches_of wards batch_size) = wards /\
  length (batches_of wards batch_size)
  = (length wards + batch_size - 1) / batch_size /\
  (forall i b, batches_of wards batch_size !! i = Some b ->
     0 < length b <= batch_size /\
     (S i < length (batches_of wards batch_size) -> length b = batch_size)).
Proof.
  intros Hpos.
  assert (length (batches_of wards batch_size)
          = (length wards + batch_size - 1) / batch_size) as Hlen.
  { unfold batches_of, py_range_step. by rewrite !length_fmap, length_seq. }
  split; [|split; [exact Hlen|]].
  - unfold batches_of. erewrite list_fmap_ext; [|intros; apply batch_at_slice].
    by apply slices_concat.
  - intros i b Hb. rewrite Hlen.
    apply batches_of_lookup in Hb as [-> Hi]. rewrite batch_at_length.
    destruct (decide (length wards = 0)) as [H0|H0].
    { rewrite H0 in Hi. rewrite Nat.div_small in Hi by lia. lia. }
    pose proof (range_step_last (length wards) batch_size) as Hlast.
    split; [|intros HS]; nia.
Qed.

Lemma batches_partition_witness :
  concat (batches_of wards_120 50) = wards_120 /\
  length (batches_of wards_120 50) = (length wards_120 + 50 - 1) / 50 /\
  (forall i b, batches_of wards_120 50 !! i = Some b ->
     0 < length b <= 50 /\
     (S i < length (batches_of wards_120 50) -> length b = 50)).
Proof. apply (batches_partition wards_120 50). lia. Defined.

Example batches_of_120_by_50 :
  length <$> batches_of wards_120 50 = [50; 50; 20].
Proof. reflexivity. Qed.

Lemma filter_range_below {A : Type} (f : A -> bool) (g : nat -> A) (j m : nat) :
  (forall k, f (g k) = true <-> k < j) ->
  filter (fun x => f x = true) (g <$> seq 0 m) = g <$> seq 0 (Nat.min j m).
Proof.
  intros Hf. induction m as [|m IH]; [by rewrite Nat.min_0_r|].
  rewrite seq_S, fmap_app, filter_app, IH. simpl.
  destruct (decide (m < j)) as [Hlt|Hge].
  - rewrite filter_cons_True by (by apply Hf).
    replace (Nat.min j (S m)) with (S m) by lia.
    replace (Nat.min j m) with m by lia.
    by rewrite seq_S, fmap_app.
  - rewrite filter_cons_False by (by rewrite Hf).
    replace (Nat.min j (S m)) with (Nat.min j m) by lia.
    by rewrite app_nil_r.
Qed.

Lemma throttled_iff delay_ms total_wards batch_size k :
  0 < batch_size -> (0 < delay_ms)%Z ->
  startup.throttled delay_ms total_wards batch_size (k * batch_size) = true <->
  k < (total_wards + batch_size - 1) / batch_size - 1.
Proof.
  intros Hn Hd. unfold startup.throttled.
  rewrite andb_true_iff, Z.gtb_ltb, Z.ltb_lt, Nat.ltb_lt.
  pose proof (Nat.div_mod_eq (total_wards + batch_size - 1) batch_size) as Hdiv.
  pose proof (Nat.mod_upper_bound (total_wards + batch_size - 1) batch_size)
    as Hmod.
  split.
  - intros [_ H]. nia.
  - intros H. split; [exact Hd|]. nia.
Qed.

(** X14.  With a positive delay and a positive batch size, every batch but
    the last is followed by a throttle sleep, so a run of [n] batches sleeps
    [n - 1] times between batches; with a delay of zero or less it never
    sleeps between batches. *)
Theorem throttle_between_batches delay_ms total_wards batch_size :
  0 < batch_size ->
  ((0 < delay_ms)%Z ->
   startup.throttle_points delay_ms total_wards batch_size
   = take (length (py_range_step total_wards batch_size) - 1)
       (py_range_step total_wards batch_size)) /\
  ((delay_ms <= 0)%Z ->
   startup.throttle_points delay_ms total_wards batch_size = []).
Proof.
  intros Hn. unfold startup.throttle_points. split; intros Hd.
  - unfold py_range_step at 1.
    rewrite (filter_range_below
               (startup.throttled delay_ms total_wards batch_size)
               (fun k => k * batch_size)
               ((total_wards + batch_size - 1) / batch_size - 1))
      by (intros; by apply throttled_iff).
    unfold py_range_step. rewrite length_fmap, length_seq, <- fmap_take.
    rewrite take_seq. reflexivity.
  - induction (py_range_step total_wards batch_size) as [|i l IH];
      [reflexivity|].
    rewrite filter_cons_False; [exact IH|].
    unfold startup.throttled.
    destruct (delay_ms >? 0)%Z eqn:Hg; [|by simpl].
    apply Z.gtb_lt in Hg. lia.
Qed.

Lemma throttle_between_batches_witness :
  startup.throttle_points 200 120 50 = [0; 50] /\
  startup.throttle_points 0 120 50 = [].
Proof.
  destruct (throttle_between_batches 200 120 50) as [Hpos _]; [lia|].
  destruct (throttle_between_batches 0 120 50) as [_ Hzero]; [lia|].
  split; [rewrite Hpos by lia; reflexivity|apply Hzero; lia].
Defined.

(* ===================================================================== *)
(** ** A run in which every fetch fails                                   *)
(* ===================================================================== *)

Lemma gather_all_failed provider batch :
  Forall (fun w => (fetch_ward_weather (provider w) (ward_code w)).2 = Ok None)
    batch ->
  gather provider batch = Ok ((fun _ => None) <$> batch).
Proof.
  intros H. unfold gather.
  apply (for_each_fmap _ (fun _ => None)). exact H.
Qed.

Lemma process_batch_all_failed provider fails now i batch st s :
  Forall (fun w => (fetch_ward_weather (provider w) (ward_code w)).2 = Ok None)
    batch ->
  process_batch provider fails now i batch st s
  = (Ok {| all_results := all_results st;
           failed_count := failed_count st + length batch |}, s).
Proof.
  intros H. unfold process_batch, lift, mbind at 1, M_bind at 1.
  rewrite (gather_all_failed _ _ H).
  assert (batch_results_of ((fun _ => None) <$> batch) = []) as ->.
  { unfold batch_results_of. clear H. induction batch; [reflexivity|].
    csimpl. exact IHbatch. }
  unfold mbind, M_bind, mret, M_ret. simpl.
  rewrite app_nil_r, length_fmap, Nat.sub_0_r. reflexivity.
Qed.

Lemma batches_all_failed provider fails now wards batch_size starts st s :
  Forall (fun w => (fetch_ward_weather (provider w) (ward_code w)).2 = Ok None)
    wards ->
  batches provider fails now wards batch_size starts st s
  = (Ok {| all_results := all_results st;
           failed_count := failed_count st
             + length (concat (batch_at wards batch_size <$> starts)) |}, s).
Proof.
  intros H. revert st. induction starts as [|i starts IH]; intros st.
  - simpl. unfold mret, M_ret. destruct st. simpl. by rewrite Nat.add_0_r.
  - cbn [batches]. unfold mbind, M_bind.
    rewrite process_batch_all_failed.
    2:{ unfold batch_at, py_slice. by apply Forall_take, Forall_drop. }
    rewrite IH. simpl. rewrite length_app. do 3 f_equal. unfold fmap. lia.
Qed.

(** X15.  For a non-empty ward list and a positive batch size: if every
    ward's fetch returns [None], the run returns the summary with
    [successful = 0] and [failed = total_wards] and sends nothing to the
    store; and whenever a run returns a summary, it is this one and the
    store is as it was. *)
Theorem run_with_summary provider fails now round1 int_div
    batch_size wards elapsed s :
  wards <> [] -> (0 < batch_size)%Z ->
  (Forall (fun w => (fetch_ward_weather (provider w) (ward_code w)).2 = Ok None)
     wards ->
   run provider fails now round1 int_div batch_size wards elapsed s
   = (Ok (Some (all_failed_summary round1 int_div (length wards) elapsed)), s))
  /\
  (forall sm s',
     run provider fails now round1 int_div batch_size wards elapsed s
     = (Ok (Some sm), s') ->
     sm = all_failed_summary round1 int_div (length wards) elapsed /\ s' = s).
Proof.
  intros Hne Hb. split.
  - intros Hall. unfold run.
    destruct wards as [|w wards'] eqn:Hw; [congruence|]. rewrite <- Hw in *.
    rewrite (proj2 (Z.leb_gt _ _) Hb). unfold mbind, M_bind.
    rewrite batches_all_failed by exact Hall. unfold mret, M_ret. simpl.
    erewrite list_fmap_ext; [|intros; apply batch_at_slice].
    rewrite slices_concat by lia. reflexivity.
  - intros sm s' Hrun.
    pose proof (completed_run_summary _ _ _ _ _ _ _ _ _ _ _ Hrun)
      as (-> & Ht & Hsum & Hs & _).
    split; [|reflexivity].
    unfold run in Hrun.
    destruct wards as [|w wards'] eqn:Hw; [congruence|]. rewrite <- Hw in *.
    rewrite (proj2 (Z.leb_gt _ _) Hb) in Hrun. unfold mbind, M_bind in Hrun.
    destruct (batches _ _ _ _ _ _ _ s) as [[st|e] s1]; [|discriminate].
    unfold mret, M_ret in Hrun. injection Hrun as <- <-.
    unfold all_failed_summary. simpl in *. f_equal; lia.
Qed.

Lemma run_with_summary_witness :
  run always_down no_faults (fun _ => "2024-01-01T00:00:00+00:00")
    (fun x => x) (fun _ x => x) 50 [ward_at 7; ward_at 8] (S754_zero false)
    empty_store
  = (Ok (Some {| total_wards := 2; successful := 0; failed := 2;
                 elapsed_seconds := S754_zero false;
                 wards_per_second := PInt 0 |}), empty_store).
Proof.
  destruct (run_with_summary always_down no_faults
              (fun _ => "2024-01-01T00:00:00+00:00") (fun x => x)
              (fun _ x => x) 50 [ward_at 7; ward_at 8] (S754_zero false)
              empty_store) as [Hall _]; [discriminate|lia|].
  apply Hall. repeat constructor.
Defined.

(* ===================================================================== *)
(** ** More on the semaphore                                              *)
(* ===================================================================== *)

Lemma init_room batch_size wards : room_inv batch_size (init batch_size wards).
Proof.
  split; simpl; [lia|].
  apply Forall_fmap, Forall_forall. intros i _. simpl.
  rewrite batch_at_length. lia.
Qed.

Lemma step_room provider batch_size s s' :
  step provider s s' -> room_inv batch_size s -> room_inv batch_size s'.
Proof.
  intros Hstep [Hlen Hlater].
  destruct Hstep as [s i t p' t' _ _|s batch rest Hl _]; split; simpl.
  - by rewrite length_insert.
  - exact Hlater.
  - rewrite Hl in Hlater. apply Forall_cons in Hlater as [Hb _].
    by rewrite length_fmap.
  - rewrite Hl in Hlater. by apply Forall_cons in Hlater as [_ Hrest].
Qed.

Lemma reachable_room provider batch_size wards s :
  rtc (step provider) (init batch_size wards) s -> room_inv batch_size s.
Proof.
  revert s. apply rtc_ind_r.
  - apply init_room.
  - intros y z _ Hstep Hy. eapply step_room; eassumption.
Qed.

Lemma count_disjoint p q ts :
  Forall (fun t => p t = true -> q t = false) ts ->
  count p ts + count q ts <= length ts.
Proof.
  induction 1 as [|t ts Ht _ IH]; [unfold count; simpl; lia|].
  rewrite !count_cons. simpl.
  destruct (p t); [rewrite Ht by reflexivity|destruct (q t)]; simpl; lia.
Qed.

Lemma count_pos p ts t : t ∈ ts -> p t = true -> 0 < count p ts.
Proof.
  intros Hin Hp. induction ts as [|t' ts IH]; [by apply elem_of_nil in Hin|].
  rewrite count_cons. apply elem_of_cons in Hin as [<-|Hin].
  - rewrite Hp. simpl. lia.
  - specialize (IH Hin). lia.
Qed.

Lemma waiting_has_permit provider batch_size wards s t :
  rtc (step provider) (init batch_size wards) s ->
  t ∈ tasks s -> at_pc t = Waiting -> 0 < permits s.
Proof.
  intros Hreach Hin Hw.
  destruct (reachable_inv _ _ _ _ Hreach) as [Hsum Hall].
  destruct (reachable_room _ _ _ _ Hreach) as [Hlen _].
  pose proof (count_pos waiting (tasks s) t Hin) as Hpos.
  unfold waiting in Hpos at 1. rewrite Hw in Hpos. specialize (Hpos eq_refl).
  pose proof (count_disjoint holds_permit waiting (tasks s)) as Hdis.
  assert (Forall (fun t => holds_permit t = true -> waiting t = false) (tasks s))
    as Hd.
  { eapply Forall_impl; [exact Hall|]. intros u Hu Hh. simpl in Hu.
    rewrite <- Hu in Hh. unfold in_flight, waiting in *.
    by destruct (at_pc u). }
  specialize (Hdis Hd). lia.
Qed.

(** X16.  The semaphore never makes a task wait: in every state a run can
    reach, a permit is free whenever some task has not yet entered the
    block, because a batch never has more tasks than the pool has
    permits. *)
Theorem semaphore_never_blocks provider batch_size wards s :
  rtc (step provider) (init batch_size wards) s ->
  length (tasks s) <= batch_size /\
  (forall t, t ∈ tasks s -> at_pc t = Waiting -> 0 < permits s).
Proof.
  intros Hreach. split.
  - by destruct (reachable_room _ _ _ _ Hreach).
  - intros t. by apply (waiting_has_permit provider batch_size wards).
Qed.

(** X17.  No deadlock: in every state a run can reach, as long as some task
    has not finished, the run can move. *)
Theorem unfinished_task_can_move provider batch_size wards s t :
  rtc (step provider) (init batch_size wards) s ->
  t ∈ tasks s -> finished t = false ->
  exists s', step provider s s'.
Proof.
  intros Hreach Hin Hfin.
  destruct (reachable_inv _ _ _ _ Hreach) as [_ Hall].
  pose proof (proj1 (Forall_forall _ _) Hall t Hin) as Hh. simpl in Hh.
  pose proof (waiting_has_permit _ _ _ _ t Hreach Hin) as Hperm.
  apply list_elem_of_lookup in Hin as [i Hi].
  destruct t as [w [|k|k|r] h]; unfold finished, in_flight in *; simpl in *;
    try discriminate.
  - subst h. specialize (Hperm eq_refl).
    destruct (permits s) as [|p] eqn:Hp; [lia|].
    eexists. eapply (step_task provider s i _ p); [exact Hi|].
    rewrite Hp. apply acquire.
  - destruct (on_attempt (ward_code w) k (provider w k)) as [r|wait] eqn:Ho.
    + eexists. eapply (step_task provider s i); [exact Hi|].
      eapply attempt_returns, Ho.
    + eexists. eapply (step_task provider s i); [exact Hi|].
      eapply attempt_backs_off, Ho.
  - destruct (decide (S k < 3)) as [Hk|Hk].
    + eexists. eapply (step_task provider s i); [exact Hi|].
      by apply wake_retry.
    + eexists. eapply (step_task provider s i); [exact Hi|].
      by apply wake_exhausted.
Qed.

(** X18.  No permit is lost: in every state a run can reach in which all
    tasks have finished, by a return or by an exception, all [batch_size]
    permits are back in the pool. *)
Theorem permits_all_returned provider batch_size wards s :
  rtc (step provider) (init batch_size wards) s ->
  forallb finished (tasks s) = true ->
  permits s = batch_size.
Proof.
  intros Hreach Hfin.
  destruct (reachable_inv _ _ _ _ Hreach) as [Hsum Hall].
  rewrite (count_none holds_permit (tasks s)) in Hsum; [lia|].
  apply Forall_forall. intros t Hin.
  pose proof (proj1 (Forall_forall _ _) Hall t Hin) as Hh. simpl in Hh.
  pose proof (proj1 (forallb_forall _ _) Hfin t
                (proj1 (list_elem_of_In _ _) Hin)) as Hf.
  rewrite <- Hh. unfold finished, in_flight in *. by destruct (at_pc t).
Qed.

(** X19.  The interleaving changes no result: in every state a run can
    reach, a task that has finished has finished with exactly what
    [fetch_ward_weather] computes for its ward from the provider's
    answers. *)
Theorem interleaving_keeps_results provider batch_size wards s t r :
  rtc (step provider) (init batch_size wards) s ->
  t ∈ tasks s -> at_pc t = Finished r ->
  r = (fetch_ward_weather (provider (ward t)) (ward_code (ward t))).2.
Proof.
  intros Hreach Hin Hr.
  pose proof (finished_task_result _ _ _ _ Hreach) as Hall.
  exact (proj1 (Forall_forall _ _) Hall t Hin r Hr).
Qed.

Lemma one_waiting_reachable :
  rtc (step always_500) (init 1 [ward_at 0]) one_waiting.
Proof.
  eapply rtc_l; [|apply rtc_refl].
  exact (step_next_batch always_500 (init 1 [ward_at 0]) [ward_at 0] []
           eq_refl eq_refl).
Qed.

Lemma one_done_reachable :
  rtc (step always_500) (init 1 [ward_at 0]) one_done.
Proof.
  eapply rtc_trans; [apply one_waiting_reachable|].
  eapply rtc_l.
  { exact (step_task always_500 one_waiting 0 (launch (ward_at 0)) 0 _ eq_refl
             (acquire always_500 0 (ward_at 0))). }
  eapply rtc_l; [|apply rtc_refl].
  exact (step_task always_500
           {| permits := 0;
              tasks := [ {| ward := ward_at 0; at_pc := Attempting 0;
                            holds_permit := true |} ];
              later := [] |}
           0 _ 1 _ eq_refl
           (attempt_returns always_500 0 (ward_at 0) 0 true (Ok None) eq_refl)).
Qed.

Lemma semaphore_never_blocks_witness :
  length (tasks one_waiting) <= 1 /\
  (forall t, t ∈ tasks one_waiting -> at_pc t = Waiting ->
     0 < permits one_waiting).
Proof.
  apply (semaphore_never_blocks always_500 1 [ward_at 0] one_waiting).
  apply one_waiting_reachable.
Defined.

Lemma unfinished_task_can_move_witness :
  exists s', step always_500 one_waiting s'.
Proof.
  apply (unfinished_task_can_move always_500 1 [ward_at 0] one_waiting
           (launch (ward_at 0))).
  - apply one_waiting_reachable.
  - apply elem_of_cons. by left.
  - reflexivity.
Defined.

Lemma permits_all_returned_witness : permits one_done = 1.
Proof.
  apply (permits_all_returned always_500 1 [ward_at 0] one_done).
  - apply one_done_reachable.
  - reflexivity.
Defined.

Lemma interleaving_keeps_results_witness :
  Ok None
  = (fetch_ward_weather (always_500 (ward_at 0)) (ward_code (ward_at 0))).2.
Proof.
  apply (interleaving_keeps_results always_500 1 [ward_at 0] one_done
           {| ward := ward_at 0; at_pc := Finished (Ok None);
              holds_permit := false |} (Ok None)).
  - apply one_done_reachable.
  - apply elem_of_cons. by left.
  - reflexivity.
Defined.

(* ===================================================================== *)
(** ** The ward source                                                    *)
(* ===================================================================== *)

Lemma page_size_pos : 0 < page_size.
Proof. unfold page_size. lia. Qed.

Lemma page_queries_S start n :
  page_queries start (S n)
  = Range start (start + page_size - 1)
      :: page_queries (start + page_size) n.
Proof.
  unfold page_queries. rewrite <- cons_seq, fmap_cons. f_equal.
  - f_equal; lia.
  - rewrite <- fmap_S_seq, <- list_fmap_compose.
    apply list_fmap_ext. intros i k _. unfold compose. f_equal; lia.
Qed.

Section Reads_facts.

Variable table : list (gmap string pyval).
Variable fails : nat -> bool.

Lemma pages_unfold fuel start asked acc :
  pages table fails (S fuel) start asked acc
  = if fails asked
    then Some ([Range start (start + page_size - 1)], Raise StoreError)
    else
      match take page_size (drop start table) with
      | [] => Some ([Range start (start + page_size - 1)], Ok acc)
      | batch =>
          if length batch <? page_size
          then Some ([Range start (start + page_size - 1)], Ok (acc ++ batch))
          else
            match pages table fails fuel (start + page_size) (S asked)
                    (acc ++ batch) with
            | Some (qs, r) =>
                Some (Range start (start + page_size - 1) :: qs, r)
            | None => None
            end
      end.
Proof.
  pose proof page_size_pos.
  cbn [pages]. unfold answer.
  replace (S (start + page_size - 1)) with (start + page_size) by lia.
  rewrite py_slice_chunk. destruct (fails asked); [reflexivity|].
  destruct (take page_size (drop start table)); reflexivity.
Qed.

Lemma pages_last fuel start asked acc :
  fails asked = false ->
  length table - start < page_size ->
  pages table fails (S fuel) start asked acc
  = Some ([Range start (start + page_size - 1)], Ok (acc ++ drop start table)).
Proof.
  intros Hf Hlt. rewrite pages_unfold, Hf.
  rewrite take_ge by (rewrite length_drop; lia).
  destruct (drop start table) as [|r rest] eqn:Hd.
  - by rewrite app_nil_r.
  - cbv beta iota zeta.
    assert ((length (r :: rest) <? page_size) = true) as ->; [|reflexivity].
    apply Nat.ltb_lt. rewrite <- Hd, length_drop. lia.
Qed.

Lemma pages_full fuel start asked acc :
  fails asked = false ->
  page_size <= length table - start ->
  pages table fails (S fuel) start asked acc
  = match pages table fails fuel (start + page_size) (S asked)
            (acc ++ take page_size (drop start table)) with
    | Some (qs, r) => Some (Range start (start + page_size - 1) :: qs, r)
    | None => None
    end.
Proof.
  intros Hf Hge. pose proof page_size_pos. rewrite pages_unfold, Hf.
  assert (length (take page_size (drop start table)) = page_size) as Hlen.
  { rewrite length_take, length_drop. lia. }
  destruct (take page_size (drop start table)) as [|r rest] eqn:Hd.
  - simpl in Hlen. lia.
  - cbv beta iota zeta. rewrite Hlen, Nat.ltb_irrefl. reflexivity.
Qed.

Lemma div_page_step n :
  page_size <= n -> n / page_size = S ((n - page_size) / page_size).
Proof.
  intros Hge. pose proof page_size_pos.
  replace n with ((n - page_size) + 1 * page_size) at 1 by lia.
  rewrite Nat.div_add by lia. lia.
Qed.

Lemma pages_all fuel start asked acc :
  (length table - start) / page_size < fuel ->
  (forall j, j <= (length table - start) / page_size ->
     fails (asked + j) = false) ->
  pages table fails fuel start asked acc
  = Some (page_queries start ((length table - start) / page_size + 1),
          Ok (acc ++ drop start table)).
Proof.
  pose proof page_size_pos as HP.
  revert start asked acc. induction fuel as [|fuel IH];
    intros start asked acc Hfuel Hok; [lia|].
  assert (fails asked = false) as Hf.
  { rewrite <- (Hok 0) by lia. f_equal. lia. }
  destruct (decide (length table - start < page_size)) as [Hlt|Hge].
  - rewrite pages_last by assumption.
    rewrite Nat.div_small by lia. simpl.
    unfold page_queries. simpl. by rewrite Nat.add_0_r.
  - rewrite pages_full by (auto; lia).
    rewrite (div_page_step (length table - start)) in * by lia.
    rewrite IH.
    + replace (length table - (start + page_size))
        with (length table - start - page_size) by lia.
      replace (S ((length table - start - page_size) / page_size) + 1)
        with (S ((length table - start - page_size) / page_size + 1)) by lia.
      rewrite (page_queries_S start). do 3 f_equal.
      rewrite <- app_assoc. f_equal.
      rewrite <- (take_drop page_size (drop start table)) at 2.
      by rewrite drop_drop.
    + replace (length table - (start + page_size))
        with (length table - start - page_size) by lia. lia.
    + intros j Hj.
      replace (length table - (start + page_size))
        with (length table - start - page_size) in Hj by lia.
      rewrite <- (Hok (S j)) by lia. f_equal. lia.
Qed.

Lemma pages_fail fuel start asked acc k :
  k <= (length table - start) / page_size ->
  k < fuel ->
  fails (asked + k) = true ->
  (forall j, j < k -> fails (asked + j) = false) ->
  pages table fails fuel start asked acc
  = Some (page_queries start (k + 1), Raise StoreError).
Proof.
  pose proof page_size_pos as HP.
  revert start asked acc k. induction fuel as [|fuel IH];
    intros start asked acc k Hk Hfuel Hfail Hok; [lia|].
  destruct k as [|k].
  - rewrite Nat.add_0_r in Hfail. rewrite pages_unfold, Hfail.
    unfold page_queries. simpl. by rewrite Nat.add_0_r.
  - assert (fails asked = false) as Hf.
    { rewrite <- (Hok 0) by lia. f_equal. lia. }
    assert (page_size <= length table - start) as Hge.
    { destruct (decide (page_size <= length table - start)); [done|].
      rewrite Nat.div_small in Hk by lia. lia. }
    rewrite pages_full by assumption.
    rewrite (div_page_step (length table - start)) in Hk by lia.
    rewrite (IH _ _ _ k).
    + replace (S k + 1) with (S (k + 1)) by lia.
      rewrite (page_queries_S start). reflexivity.
    + replace (length table - (start + page_size))
        with (length table - start - page_size) by lia. lia.
    + lia.
    + rewrite <- Hfail. f_equal. lia.
    + intros j Hj. rewrite <- (Hok (S j)) by lia. f_equal. lia.
Qed.

End Reads_facts.

(** X20.  Called with a limit of zero or less, [get_all_wards] returns the
    whole table, every ward once and in the server's order, whatever its
    size; it sends one range query per 1000 wards and one more, which for a
    table of exactly a multiple of 1000 wards comes back empty.  Since the
    loop has no bound of its own, the statement is for any number of turns
    above the number of full pages. *)
Theorem pagination_returns_table table fails fuel (limit : Z) :
  (limit <= 0)%Z ->
  length table / page_size < fuel ->
  (forall j, j <= length table / page_size -> fails j = false) ->
  get_all_wards table fails fuel limit
  = Some (page_queries 0 (length table / page_size + 1), Ok table).
Proof.
  intros Hl Hfuel Hok. unfold get_all_wards.
  destruct (limit >? 0)%Z eqn:Hg; [apply Z.gtb_lt in Hg; lia|].
  rewrite pages_all; rewrite ?Nat.sub_0_r; auto.
Qed.

Lemma pagination_returns_table_witness :
  get_all_wards (ward_table 2000) (fun _ => false) 3 0
  = Some ([Range 0 999; Range 1000 1999; Range 2000 2999],
          Ok (ward_table 2000)).
Proof.
  apply (pagination_returns_table (ward_table 2000) (fun _ => false) 3 0).
  - lia.
  - vm_compute. lia.
  - reflexivity.
Defined.

(** X21.  A query that raises ends [get_all_wards] with that exception: the
    pages read before it are dropped, no further query is sent, and nothing
    is returned.  With a positive limit this is the one limit query; in the
    pagination it is the first range query that raises. *)
Theorem read_failure_returns_nothing table fails fuel (limit : Z) k :
  ((0 < limit)%Z -> fails 0 = true ->
   get_all_wards table fails fuel limit
   = Some ([Limit limit], Raise StoreError)) /\
  ((limit <= 0)%Z ->
   k <= length table / page_size -> k < fuel ->
   fails k = true -> (forall j, j < k -> fails j = false) ->
   get_all_wards table fails fuel limit
   = Some (page_queries 0 (k + 1), Raise StoreError)).
Proof.
  unfold get_all_wards. split.
  - intros Hl Hf. rewrite (proj2 (Z.gtb_lt _ _) Hl), Hf. reflexivity.
  - intros Hl Hk Hfuel Hf Hok.
    destruct (limit >? 0)%Z eqn:Hg; [apply Z.gtb_lt in Hg; lia|].
    apply pages_fail; rewrite ?Nat.sub_0_r; auto.
Qed.

Lemma read_failure_returns_nothing_witness :
  get_all_wards (ward_table 2000) (fun i => bool_decide (i = 1)) 3 0
  = Some ([Range 0 999; Range 1000 1999], Raise StoreError).
Proof.
  destruct (read_failure_returns_nothing (ward_table 2000)
              (fun i => bool_decide (i = 1)) 3 0 1) as [_ H].
  apply H.
  - lia.
  - vm_compute. lia.
  - lia.
  - reflexivity.
  - intros j Hj. assert (j = 0) as -> by lia. reflexivity.
Defined.

(* ===================================================================== *)
(** ** Input and environment                                              *)
(* ===================================================================== *)



Example env_complete :
  startup.check_env full_env
  = startup.Ready "k-123" (Client "https://example.supabase.co" "service-key").
Proof. reflexivity. Qed.

Example env_empty_url :
  startup.check_env (<["SUPABASE_URL" := ""]> full_env) = startup.Exit 1.
Proof. reflexivity. Qed.

(** X23.  Test mode caps the run at five wards: whenever the input has a
    true [runTestMode], whatever [maxWardsToProcess] says, the configured
    cap is 5, and the ward source called with it sends one limit query and
    returns the first five wards of the table, or all of them when the table
    has fewer. *)
Theorem test_mode_reads_five_wards input cfg table fuel :
  startup.read_config input = Ok cfg ->
  py_truthy (startup.test_mode cfg) = true ->
  startup.max_wards cfg = PInt 5 /\
  get_all_wards table (fun _ => false) fuel 5
  = Some ([Limit 5], Ok (take 5 table)) /\
  length (take 5 table) = Nat.min 5 (length table).
Proof.
  intros Hcfg Ht. unfold startup.read_config in Hcfg.
  apply bind_ok in Hcfg as (b & _ & Hcfg).
  apply bind_ok in Hcfg as (dl & _ & Hcfg).
  apply bind_ok in Hcfg as (mw & _ & Hcfg).
  apply bind_ok in Hcfg as (tm & _ & Hcfg).
  injection Hcfg as <-. simpl in Ht.
  split; [simpl; by rewrite Ht|]. split; [reflexivity|]. apply length_take.
Qed.

Lemma test_mode_reads_five_wards_witness :
  startup.max_wards
    {| startup.batch_size := PInt 50; startup.delay_ms := PInt 200;
       startup.max_wards := PInt 5; startup.test_mode := PBool true |}
  = PInt 5 /\
  get_all_wards (ward_table 7) (fun _ => false) 0 5
  = Some ([Limit 5], Ok (take 5 (ward_table 7))) /\
  length (take 5 (ward_table 7)) = Nat.min 5 (length (ward_table 7)).
Proof.
  apply (test_mode_reads_five_wards
           (PDict (py_dict [("runTestMode", PBool true);
                            ("maxWardsToProcess", PInt 2)]))
           {| startup.batch_size := PInt 50; startup.delay_ms := PInt 200;
              startup.max_wards := PInt 5; startup.test_mode := PBool true |}
           (ward_table 7) 0); reflexivity.
Defined.
